(** * Telegram webhook bot: TTL store, resilient gateway, update dispatcher

    A shallow embedding of the TypeScript sources

    - [cache-manager.ts]   (class [CacheManager]),
    - [stats-manager.ts]   (class [StatsManager]),
    - [telegram-api.ts]    (class [TelegramAPI]),
    - [webhook-handler.ts] (class [WebhookHandler]),
    - [server.ts]          (the webhook route),

    followed by the properties of the design document that concern them.

    Conventions.  Instants and durations are integers (milliseconds since
    the epoch, as returned by [Date.now()]).  Mutable objects are threaded
    explicitly: the cache is a finite map, the circuit breaker a record, and
    what lies outside the process (clock, network, console) is collected in
    a record [Env.t].  One call runs from start to end without another call
    interleaved at its suspension points. *)

From stdpp Require Import base numbers option list strings pretty gmap.

Local Open Scope string_scope.
Local Open Scope list_scope.
Local Open Scope Z_scope.
Set Warnings "-register-all".

(** ** JavaScript values as they come out of [JSON.parse] *)

Module Js.

(** A parsed JSON document, plus [undefined] for what a missing property
    reads as.  Numbers are the integers (ids, counters, instants). *)
Inductive value : Type :=
| Undefined
| Null
| Bool (b : bool)
| Num (n : Z)
| Str (s : string)
| Obj (fields : list (string * value))
| Arr (items : list value).

(** [ToBoolean]: what [if (v)], [v || d] and [!v] look at. *)
Definition truthy (v : value) : bool :=
  match v with
  | Undefined | Null => false
  | Bool b => b
  | Num n => negb (n =? 0)
  | Str s => negb (String.eqb s "")
  | Obj _ | Arr _ => true
  end.

(** [a || b] *)
Definition or (a b : value) : value := if truthy a then a else b.

Fixpoint lookup_field (name : string) (fields : list (string * value)) : value :=
  match fields with
  | [] => Undefined
  | (k, v) :: rest => if String.eqb k name then v else lookup_field name rest
  end.

Definition has_field (name : string) (fields : list (string * value)) : bool :=
  existsb (fun kv => String.eqb (fst kv) name) fields.

(** The only exception the modelled code can raise is a [TypeError]:
    reading a property of [undefined] or [null], or calling something
    that is not a function. *)
Inductive error : Type := TypeError.

(** A completion record: the statement finished, or it threw. *)
Inductive completion (A : Type) : Type :=
| Normal (a : A)
| Abrupt (e : error).
Arguments Normal {A} a.
Arguments Abrupt {A} e.

(** [v.name] for the property names the program reads ([chat], [id],
    [from], [text], ...): none of them lives on a prototype, so only an
    own property of an object yields a value. *)
Definition prop (v : value) (name : string) : completion value :=
  match v with
  | Undefined | Null => Abrupt TypeError
  | Obj fields => Normal (lookup_field name fields)
  | Bool _ | Num _ | Str _ | Arr _ => Normal Undefined
  end.

(** [v?.name] *)
Definition optprop (v : value) (name : string) : value :=
  match v with
  | Obj fields => lookup_field name fields
  | _ => Undefined
  end.

(** [ToString], as used by template literals and by [id.toString()].
    An object answers ["[object Object]"] through its prototype unless an
    own (hence non-callable) [toString] property shadows the method; an
    array joins its elements with commas, holes for [null]. *)
Fixpoint toString (v : value) : completion string :=
  match v with
  | Undefined => Normal "undefined"
  | Null => Normal "null"
  | Bool true => Normal "true"
  | Bool false => Normal "false"
  | Num n => Normal (pretty n)
  | Str s => Normal s
  | Obj fields =>
      if has_field "toString" fields then Abrupt TypeError
      else Normal "[object Object]"
  | Arr items =>
      (fix join (first : bool) (l : list value) : completion string :=
         match l with
         | [] => Normal ""
         | x :: rest =>
             let piece :=
               match x with
               | Undefined | Null => Normal ""
               | _ => toString x
               end in
             match piece, join false rest with
             | Normal a, Normal b =>
                 Normal ((if first then "" else ",") +:+ a +:+ b)
             | Abrupt e, _ => Abrupt e
             | _, Abrupt e => Abrupt e
             end
         end) true items
  end.

(** [v === "literal"] *)
Definition is_string (v : value) (literal : string) : bool :=
  match v with
  | Str s => String.eqb s literal
  | _ => false
  end.

(** [undefined] and [null], the values that have no properties. *)
Definition nullish (v : value) : bool :=
  match v with Undefined | Null => true | _ => false end.

(** [s.toLowerCase()] on the ASCII letters. *)
Definition lower_ascii (c : Ascii.ascii) : Ascii.ascii :=
  let n := Ascii.nat_of_ascii c in
  if ((65 <=? n)%nat && (n <=? 90)%nat)%bool then Ascii.ascii_of_nat (n + 32) else c.

Fixpoint toLowerCase (s : string) : string :=
  match s with
  | EmptyString => EmptyString
  | String c rest => String (lower_ascii c) (toLowerCase rest)
  end.

(** [s.startsWith(p)] *)
Definition startsWith (s p : string) : bool := String.prefix p s.

(** [s.includes(p)] *)
Fixpoint includes (s p : string) : bool :=
  if String.prefix p s then true
  else match s with
       | EmptyString => false
       | String _ rest => includes rest p
       end.

(** [s.substring(n)] *)
Fixpoint substring_from (n : nat) (s : string) : string :=
  match n, s with
  | O, _ => s
  | S m, EmptyString => EmptyString
  | S m, String _ rest => substring_from m rest
  end.

End Js.

(** ** [cache-manager.ts] *)

Module CacheManager.

Record CacheItem (V : Type) : Type := { value : V; expiry : Z }.
Arguments value {V} _.
Arguments expiry {V} _.

Section Store.
Context {V : Type}.

(** [private cache: Map<string, CacheItem>] *)
Local Abbreviation t := (gmap string (CacheItem V)).

(** [set(key, value, ttlSeconds = 3600)], called at instant [now]. *)
Definition set (c : t) (key : string) (v : V) (ttlSeconds : Z) (now : Z) : t :=
  let expiry := now + ttlSeconds * 1000 in
  <[key := {| value := v; expiry := expiry |}]> c.

Definition default_ttl : Z := 3600.

(** [get(key)]: [None] is the [null] the method returns for an absent
    or expired key; an expired entry is removed by the read. *)
Definition get (c : t) (key : string) (now : Z) : option V * t :=
  match c !! key with
  | None => (None, c)
  | Some item =>
      if now >? expiry item then (None, base.delete key c)
      else (Some (value item), c)
  end.

(** [delete(key)]: the result tells whether an entry was there. *)
Definition delete (c : t) (key : string) : bool * t :=
  (bool_decide (is_Some (c !! key)), base.delete key c).

Definition has (c : t) (key : string) (now : Z) : bool * t :=
  match c !! key with
  | None => (false, c)
  | Some item =>
      if now >? expiry item then (false, base.delete key c)
      else (true, c)
  end.

Definition clear (c : t) : t := ∅.

(** [cleanup()]: drop every entry with [now > item.expiry]. *)
Definition cleanup (c : t) (now : Z) : t :=
  filter (fun kv => ¬ (now > expiry (snd kv))) c.

Definition size (c : t) (now : Z) : nat * t :=
  let c' := cleanup c now in (base.size c', c').

Definition keys (c : t) (now : Z) : list string * t :=
  let c' := cleanup c now in (fst <$> map_to_list c', c').

End Store.

End CacheManager.


(** ** What goes over the wire, and the world outside the process *)

Module Wire.

(** The [text] of an outbound message.  Literals of the source are kept
    verbatim; the long templates are named, with the values they
    interpolate from the program's own state (the status text also shows
    the uptime and the memory of the process, which are left out). *)
Inductive Text : Type :=
| Plain (s : string)
| Welcome
| Help
| Status (totalMessages : Z) (activeUsers : nat)
| Hello (first_name : string)
| CurrentTime (now : Z)
| Received (text : string).

(** The [params] object handed to [makeRequest]. *)
Inductive Params : Type :=
| NoParams
| SendMessage (chat_id : Js.value) (text : Text)
| EditMessageText (chat_id : Js.value) (message_id : Z) (text : Text)
| AnswerCallbackQuery (callback_query_id : Js.value) (text : option Text) (show_alert : bool)
| AnswerInlineQuery (inline_query_id : Js.value) (message_text : string).

(** How one [fetch] followed by [response.json()] ends:
    - [Ok result]: a body with [ok] truthy;
    - [ApiError error_code description]: a body with [ok] falsy;
    - [Thrown name code message]: the request or the decoding threw
      an error object with these [name], [code] and [message]. *)
Inductive Reply : Type :=
| Ok (result : Js.value)
| ApiError (error_code : option Z) (description : option string)
| Thrown (name : string) (code : option string) (message : string).

(** One attempt as the network will answer it: the reply and the time the
    round trip takes. *)
Record Attempt : Type := { latency : Z; reply : Reply }.

End Wire.

Module Env.
Import Wire.

Inductive Event : Type :=
| Fetch (method : string) (body : Params)
| Sleep (ms : Z).

Inductive Level : Type := Info | Warn | Error.

(** - [now]: what [Date.now()] returns;
    - [net], [cursor]: the answers of the network to the successive
      requests, and how many have been consumed;
    - [io]: the requests issued and the sleeps taken, oldest first;
    - [calls]: the calls of the gateway's public methods ([sendMessage],
      [answerCallbackQuery], ...), oldest first, each with the [success]
      flag of the result it returned, whether or not it reached the
      network;
    - [logs]: what was written to the console. *)
Record t : Type := {
  now : Z;
  net : nat -> Attempt;
  cursor : nat;
  io : list Event;
  calls : list (string * Params * bool);
  logs : list (Level * string)
}.

(** [await fetch(url, ...)] then [await response.json()] *)
Definition fetch (method : string) (body : Params) (e : t) : Reply * t :=
  let a := net e (cursor e) in
  (reply a,
   {| now := now e + latency a; net := net e; cursor := S (cursor e);
      io := io e ++ [Fetch method body]; calls := calls e;
      logs := logs e |}).

(** [await this.sleep(ms)]: a timer with a negative delay fires at once. *)
Definition sleep (ms : Z) (e : t) : t :=
  {| now := now e + Z.max 0 ms; net := net e; cursor := cursor e;
     io := io e ++ [Sleep ms]; calls := calls e; logs := logs e |}.

(** [this.logger.info / warn / error (message, meta)] *)
Definition log (l : Level) (message : string) (e : t) : t :=
  {| now := now e; net := net e; cursor := cursor e; io := io e;
     calls := calls e; logs := logs e ++ [(l, message)] |}.

Definition called (method : string) (params : Params) (success : bool) (e : t) : t :=
  {| now := now e; net := net e; cursor := cursor e; io := io e;
     calls := calls e ++ [(method, params, success)]; logs := logs e |}.

(** The same world at a later reading of the clock. *)
Definition at_time (n : Z) (e : t) : t :=
  {| now := n; net := net e; cursor := cursor e; io := io e;
     calls := calls e; logs := logs e |}.

End Env.

(** ** [telegram-api.ts] *)

Module TelegramAPI.
Import Wire.

Inductive BreakerState : Type := closed | open | half_open.

(** [private circuitBreaker: { failures, lastFailure, state }] *)
Record CircuitBreaker : Type := {
  failures : Z;
  lastFailure : Z;
  state : BreakerState
}.

Record APIResult : Type := {
  success : bool;
  data : option Js.value;
  error : option string;
  retryAfter : option Z
}.

(** The breaker as the constructor leaves it. *)
Definition initial : CircuitBreaker :=
  {| failures := 0; lastFailure := 0; state := closed |}.

Definition is_open (s : BreakerState) : bool :=
  match s with open => true | _ => false end.

Definition is_digit (c : Ascii.ascii) : bool :=
  let n := Ascii.nat_of_ascii c in ((48 <=? n)%nat && (n <=? 57)%nat)%bool.

(** The longest run of digits at the head of [s]: what [(\d+)] captures. *)
Fixpoint digits (s : string) : string :=
  match s with
  | String c rest => if is_digit c then String c (digits rest) else EmptyString
  | EmptyString => EmptyString
  end.

(** [Number.parseInt] of a string of digits.  The value is computed
    exactly; it is the number JavaScript returns as long as that number is
    below 2^53, beyond which a double rounds. *)
Fixpoint parseInt_from (acc : Z) (s : string) : Z :=
  match s with
  | String c rest => parseInt_from (10 * acc + (Z.of_nat (Ascii.nat_of_ascii c) - 48)) rest
  | EmptyString => acc
  end.

Definition parseInt (s : string) : Z := parseInt_from 0 s.

(** [s] with the pattern [p] removed from its head, letters compared
    without regard to case (the [i] flag). *)
Fixpoint after_prefix_ci (p s : string) : option string :=
  match p, s with
  | EmptyString, _ => Some s
  | String a p', String b s' =>
      if Ascii.eqb (Js.lower_ascii a) (Js.lower_ascii b) then after_prefix_ci p' s' else None
  | String _ _, EmptyString => None
  end.

(** [description.match(/retry after (\d+)/i)]: the capture of the leftmost
    match, if any. *)
Fixpoint match_retry_after (description : string) : option string :=
  let here :=
    match after_prefix_ci "retry after " description with
    | Some rest => let d := digits rest in if String.eqb d "" then None else Some d
    | None => None
    end in
  match here with
  | Some d => Some d
  | None =>
      match description with
      | String _ rest => match_retry_after rest
      | EmptyString => None
      end
  end.

Definition extractRetryAfter (description : string) : Z :=
  match match_retry_after description with
  | Some d => parseInt d
  | None => 1
  end.

(** [o || d] for an optional string: absent and empty are both falsy. *)
Definition or_string (o : option string) (d : string) : string :=
  match o with
  | Some s => if String.eqb s "" then d else s
  | None => d
  end.

Definition maxRetries : Z := 3.

(** The delay of the exponential backoff after attempt [attempt]. *)
Definition backoff (attempt : Z) : Z := Z.min (1000 * 2 ^ (attempt - 1)) 5000.

(** Lines 135-149: what follows the loop once every attempt has failed. *)
Definition record_failure (lastError : string) (b : CircuitBreaker) (e : Env.t)
  : APIResult * CircuitBreaker * Env.t :=
  let failures' := failures b + 1 in
  let lastFailure' := Env.now e in
  let result := {| success := false; data := None; error := Some lastError;
                   retryAfter := None |} in
  if failures' >=? 5 then
    (result,
     {| failures := failures'; lastFailure := lastFailure'; state := open |},
     Env.log Env.Warn "Circuit breaker opened" e)
  else
    (result,
     {| failures := failures'; lastFailure := lastFailure'; state := state b |},
     e).

(** The [for] loop of [makeRequest].  [remaining] counts the iterations
    left, so that [attempt = maxRetries - remaining + 1]; the loop is entered
    with [remaining = 3] and [attempt = 1]. *)
Fixpoint attempts (remaining : nat) (attempt : Z) (lastError : string)
    (method : string) (params : Params) (b : CircuitBreaker) (e : Env.t)
  : APIResult * CircuitBreaker * Env.t :=
  match remaining with
  | O => record_failure lastError b e
  | S remaining' =>
      let next lastError e :=
        (* the exponential backoff that ends an iteration *)
        let e := if attempt <? maxRetries then Env.sleep (backoff attempt) e else e in
        attempts remaining' (attempt + 1) lastError method params b e in
      let '(r, e) := Env.fetch method params e in
      match r with
      | Ok result =>
          ({| success := true; data := Some result; error := None;
              retryAfter := None |},
           {| failures := 0; lastFailure := lastFailure b; state := closed |},
           e)
      | ApiError error_code description =>
          let lastError := or_string description "Unknown API error" in
          if bool_decide (error_code = Some 429) then
            let retryAfter := extractRetryAfter (or_string description "") in
            let e := Env.log Env.Warn "Rate limited by Telegram API" e in
            if attempt <? maxRetries then
              attempts remaining' (attempt + 1) lastError method params b
                (Env.sleep (retryAfter * 1000) e)
            else
              ({| success := false; data := None; error := Some lastError;
                  retryAfter := Some retryAfter |}, b, e)
          else
            next lastError (Env.log Env.Error "Telegram API error" e)
      | Thrown name code message =>
          let e := Env.log Env.Error "Request failed" e in
          let lastError :=
            if String.eqb name "AbortError" then "Request timeout"
            else if bool_decide (code = Some "ECONNRESET" \/ code = Some "ETIMEDOUT")
                 then "Connection error"
                 else message in
          next lastError e
      end
  end.

(** [async makeRequest(method, params = {})] *)
Definition makeRequest (method : string) (params : Params)
    (b : CircuitBreaker) (e : Env.t) : APIResult * CircuitBreaker * Env.t :=
  let loop b := attempts 3 1 "" method params b e in
  if is_open (state b) then
    let timeSinceLastFailure := Env.now e - lastFailure b in
    if timeSinceLastFailure <? 30000 then
      ({| success := false; data := None; error := Some "Circuit breaker is open";
          retryAfter := None |}, b, e)
    else
      loop {| failures := failures b; lastFailure := lastFailure b;
              state := half_open |}
  else loop b.

(** A public method: [makeRequest] on the method's name and parameters,
    the call and the outcome it reports being noted in [Env.calls]. *)
Definition method_call (method : string) (params : Params)
    (b : CircuitBreaker) (e : Env.t) : APIResult * CircuitBreaker * Env.t :=
  let out := makeRequest method params b e in
  (out.1.1, out.1.2, Env.called method params (success out.1.1) out.2).

Definition sendMessage (chatId : Js.value) (text : Text) :=
  method_call "sendMessage" (SendMessage chatId text).

Definition editMessageText (chatId : Js.value) (messageId : Z) (text : Text) :=
  method_call "editMessageText" (EditMessageText chatId messageId text).

Definition answerCallbackQuery (callbackQueryId : Js.value) (text : option Text) :=
  method_call "answerCallbackQuery" (AnswerCallbackQuery callbackQueryId text false).

Definition answerInlineQuery (inlineQueryId : Js.value) (message_text : string) :=
  method_call "answerInlineQuery" (AnswerInlineQuery inlineQueryId message_text).

Definition checkHealth (b : CircuitBreaker) (e : Env.t) : bool * CircuitBreaker * Env.t :=
  let '(result, b, e) := method_call "getMe" NoParams b e in
  (success result, b, e).

(** *** Vocabulary for the properties of the gateway *)

(** A reply that fails the attempt: anything but a body with [ok] set. *)
Definition failed (r : Reply) : bool :=
  match r with Ok _ => false | _ => true end.

(** A reply on the rate-limit path: [error_code === 429]. *)
Definition rate_limited (r : Reply) : bool :=
  match r with
  | ApiError error_code _ => bool_decide (error_code = Some 429)
  | _ => false
  end.

(** The [n]-th reply the network will give from now on. *)
Definition upcoming (e : Env.t) (n : nat) : Reply :=
  reply (Env.net e (Env.cursor e + n)%nat).

(** The breaker lets a call made at [now] through to the network. *)
Definition admits (b : CircuitBreaker) (now : Z) : bool :=
  negb (is_open (state b)) || (30000 <=? now - lastFailure b).

(** The invariant of the design document, and the stronger one that
    reachable states satisfy: away from [closed] the threshold was met. *)
Definition open_above_threshold (b : CircuitBreaker) : Prop :=
  state b = open -> 5 <= failures b.

Definition tripped_above_threshold (b : CircuitBreaker) : Prop :=
  state b <> closed -> 5 <= failures b.

(** The breaker states a sequence of calls can produce, each call made in
    an arbitrary world. *)
Inductive reachable : CircuitBreaker -> Prop :=
| reachable_initial : reachable initial
| reachable_call (method : string) (params : Params) (b : CircuitBreaker) (e : Env.t) :
    reachable b -> reachable (makeRequest method params b e).1.2.

End TelegramAPI.

(** ** The dispatcher's state and its monad *)

Module Handler.
Import Js Wire.

(** What the program stores in the cache: numbers (counters, instants of
    [Date.now()]) and, under [stats:last_activity], the string
    [new Date().toISOString()], kept as the instant it renders. *)
Inductive Stored : Type :=
| Number (n : Z)
| IsoString (instant : Z).

(** The objects a [WebhookHandler] holds: the cache (shared with the
    [StatsManager]), the gateway's circuit breaker, and the world. *)
Record State : Type := {
  cache : gmap string (CacheManager.CacheItem Stored);
  circuitBreaker : TelegramAPI.CircuitBreaker;
  env : Env.t
}.

(** A computation that reads and writes the state and may throw; the state
    reached when it throws is kept, as a [catch] block sees it. *)
Definition M (A : Type) : Type := State -> completion A * State.

Definition ret {A} (a : A) : M A := fun s => (Normal a, s).

Definition bind {A B} (m : M A) (k : A -> M B) : M B :=
  fun s =>
    match m s with
    | (Normal a, s') => k a s'
    | (Abrupt e, s') => (Abrupt e, s')
    end.

Definition lift {A} (c : completion A) : M A := fun s => (c, s).

(** [try { body } catch (error) { handler }] *)
Definition try_catch {A} (body : M A) (handler : error -> M A) : M A :=
  fun s =>
    match body s with
    | (Normal a, s') => (Normal a, s')
    | (Abrupt e, s') => handler e s'
    end.

Definition log (l : Env.Level) (message : string) : M unit :=
  fun s =>
    (Normal tt,
     {| cache := cache s; circuitBreaker := circuitBreaker s;
        env := Env.log l message (env s) |}).

(** [Date.now()] *)
Definition now : M Z := fun s => (Normal (Env.now (env s)), s).

Definition cache_get (key : string) : M (option Stored) :=
  fun s =>
    let '(v, c) := CacheManager.get (cache s) key (Env.now (env s)) in
    (Normal v, {| cache := c; circuitBreaker := circuitBreaker s; env := env s |}).

Definition cache_set (key : string) (v : Stored) (ttlSeconds : Z) : M unit :=
  fun s =>
    (Normal tt,
     {| cache := CacheManager.set (cache s) key v ttlSeconds (Env.now (env s));
        circuitBreaker := circuitBreaker s; env := env s |}).

Definition cache_keys : M (list string) :=
  fun s =>
    let '(ks, c) := CacheManager.keys (cache s) (Env.now (env s)) in
    (Normal ks, {| cache := c; circuitBreaker := circuitBreaker s; env := env s |}).

(** A call of the gateway: it always resolves to an [APIResult]. *)
Definition api
    (call : TelegramAPI.CircuitBreaker -> Env.t ->
            TelegramAPI.APIResult * TelegramAPI.CircuitBreaker * Env.t)
  : M TelegramAPI.APIResult :=
  fun s =>
    let '(r, b, e) := call (circuitBreaker s) (env s) in
    (Normal r, {| cache := cache s; circuitBreaker := b; env := e |}).

(** The calls of the gateway made so far. *)
Definition calls_of (s : State) : list (string * Params * bool) :=
  Env.calls (env s).

(** [wp m Q s]: running [m] from [s] ends in a completion and a state
    that satisfy [Q]. *)
Definition wp {A} (m : M A) (Q : completion A -> State -> Prop) (s : State) : Prop :=
  Q (m s).1 (m s).2.

(** A computation that makes no call of the gateway. *)
Definition silent {A} (m : M A) : Prop :=
  forall s, calls_of (m s).2 = calls_of s.

(** [stored || 0], for a key that holds a number when it holds anything:
    the counters [stats:total_messages], [stats:errors_24h] and
    [throttle:<chatId>] are written by the code that reads them and by no
    other, the keys of the other writers starting differently. *)
Definition or_zero (v : option Stored) : Z :=
  match v with
  | Some (Number n) => n
  | _ => 0
  end.

End Handler.

Declare Scope handler_scope.
Delimit Scope handler_scope with handler.
Notation "'do' x <- m ; k" := (Handler.bind m (fun x => k))
  (at level 10, x name, m at level 100, k at level 200) : handler_scope.
Notation "m ;; k" := (Handler.bind m (fun _ => k))
  (at level 100, k at level 200, right associativity) : handler_scope.

(** ** [stats-manager.ts] *)

Module StatsManager.
Import Js Wire Handler.
Local Open Scope handler_scope.

Definition extractUserId (update : value) : M (option string) :=
  do message <- lift (prop update "message");
  let id := optprop (optprop message "from") "id" in
  if truthy id then do s <- lift (toString id); ret (Some s) else
  let id := optprop (optprop (optprop update "callback_query") "from") "id" in
  if truthy id then do s <- lift (toString id); ret (Some s) else
  let id := optprop (optprop (optprop update "inline_query") "from") "id" in
  if truthy id then do s <- lift (toString id); ret (Some s) else
  ret None.

Definition recordUpdate (update : value) : M unit :=
  do totalMessages <- cache_get "stats:total_messages";
  cache_set "stats:total_messages" (Number (or_zero totalMessages + 1)) (86400 * 7);;
  do userId <- extractUserId update;
  (match userId with
   | Some id =>
       if String.eqb id "" then ret tt
       else do t <- now; cache_set ("stats:user:" +:+ id) (Number t) 86400
   | None => ret tt
   end);;
  do t <- now;
  cache_set "stats:last_activity" (IsoString t) 86400;;
  do errors24h <- cache_get "stats:errors_24h";
  ret tt.

Definition recordError : M unit :=
  do errors24h <- cache_get "stats:errors_24h";
  cache_set "stats:errors_24h" (Number (or_zero errors24h + 1)) 86400.

Record Stats : Type := {
  totalMessages : Z;
  activeUsers : nat;
  errors24h : Z;
  lastActivity : option Stored
}.

Definition getStats : M Stats :=
  do totalMessages <- cache_get "stats:total_messages";
  do errors24h <- cache_get "stats:errors_24h";
  do lastActivity <- cache_get "stats:last_activity";
  do ks <- cache_keys;
  let userKeys := List.filter (fun key => startsWith key "stats:user:") ks in
  ret {| totalMessages := or_zero totalMessages;
         activeUsers := length userKeys;
         errors24h := or_zero errors24h;
         lastActivity := lastActivity |}.

End StatsManager.

(** ** [webhook-handler.ts] *)

Module WebhookHandler.
Import Js Wire Handler.
Local Open Scope handler_scope.

Definition FALLBACK_MESSAGE : Text :=
  Plain "I'm sorry, I'm experiencing technical difficulties. Please try again later.".

Definition UNSURE_MESSAGE : Text :=
  Plain "I received your message but I'm not sure how to respond to this type of content.".

(** [v.name] inside the monad. *)
Definition field (v : value) (name : string) : M value := lift (prop v name).

(** The receiver of a string method ([substring], [startsWith], ...):
    anything but a string has no such method, and the call throws. *)
Definition as_string (v : value) : M string :=
  match v with
  | Str s => ret s
  | _ => lift (Abrupt TypeError)
  end.

Definition sendFallbackMessage (chatId : value) (message : Text) : M unit :=
  try_catch
    (do _ <- api (TelegramAPI.sendMessage chatId message); ret tt)
    (fun _ => log Env.Error "Fallback message failed").

Definition extractChatId (update : value) : M value :=
  do message <- field update "message";
  if truthy message then do chat <- field message "chat"; field chat "id" else
  do edited_message <- field update "edited_message";
  if truthy edited_message then do chat <- field edited_message "chat"; field chat "id" else
  do callback_query <- field update "callback_query";
  if truthy (optprop callback_query "message") then
    do message <- field callback_query "message";
    do chat <- field message "chat"; field chat "id" else
  do channel_post <- field update "channel_post";
  if truthy channel_post then do chat <- field channel_post "chat"; field chat "id" else
  do my_chat_member <- field update "my_chat_member";
  if truthy my_chat_member then do chat <- field my_chat_member "chat"; field chat "id" else
  ret Null.

Definition getUpdateType (update : value) : M string :=
  do message <- field update "message";
  if truthy message then ret "message" else
  do edited_message <- field update "edited_message";
  if truthy edited_message then ret "edited_message" else
  do callback_query <- field update "callback_query";
  if truthy callback_query then ret "callback_query" else
  do inline_query <- field update "inline_query";
  if truthy inline_query then ret "inline_query" else
  do channel_post <- field update "channel_post";
  if truthy channel_post then ret "channel_post" else
  do my_chat_member <- field update "my_chat_member";
  if truthy my_chat_member then ret "my_chat_member" else
  ret "unknown".

Definition isThrottled (chatId : value) : M bool :=
  do id <- lift (toString chatId);
  let key := "throttle:" +:+ id in
  do stored <- cache_get key;
  let count := or_zero stored in
  if count >=? 10 then ret true
  else cache_set key (Number (count + 1)) 60;; ret false.

Definition handleStartCommand (chatId : value) : M bool :=
  do result <- api (TelegramAPI.sendMessage chatId Welcome);
  ret (TelegramAPI.success result).

Definition handleHelpCommand (chatId : value) : M bool :=
  do result <- api (TelegramAPI.sendMessage chatId Help);
  ret (TelegramAPI.success result).

Definition handleStatusCommand (chatId : value) : M bool :=
  do stats <- StatsManager.getStats;
  let statusMessage :=
    Status (StatsManager.totalMessages stats) (StatsManager.activeUsers stats) in
  do result <- api (TelegramAPI.sendMessage chatId statusMessage);
  ret (TelegramAPI.success result).

Definition handleTextMessage (chatId : value) (text : string) (message : value) : M bool :=
  try_catch
    (do response <-
       (if startsWith (toLowerCase text) "/echo " then
          ret (Plain (substring_from 6 text))
        else if (includes (toLowerCase text) "hello" || includes (toLowerCase text) "hi")%bool then
          do from <- field message "from";
          do name <- lift (toString (or (optprop from "first_name") (Str "there")));
          ret (Hello name)
        else if includes (toLowerCase text) "how are you" then
          ret (Plain "I'm doing great! Thanks for asking. How can I help you today?")
        else if includes (toLowerCase text) "time" then
          do t <- now; ret (CurrentTime t)
        else ret (Received text));
     do result <- api (TelegramAPI.sendMessage chatId response);
     ret (TelegramAPI.success result))
    (fun _ => log Env.Error "Text message handling failed";; ret false).

Definition handleMessage (message : value) : M bool :=
  try_catch
    (do chat <- field message "chat";
     do chatId <- field chat "id";
     do from <- field message "from";
     let userId := optprop from "id" in
     do text0 <- field message "text";
     do text <- as_string (or text0 (Str ""));
     log Env.Info "Processing message";;
     (if truthy userId then
        do id <- lift (toString userId);
        do t <- now;
        cache_set ("user:" +:+ id +:+ ":last_seen") (Number t) 86400
      else ret tt);;
     if startsWith text "/start" then handleStartCommand chatId
     else if startsWith text "/help" then handleHelpCommand chatId
     else if startsWith text "/status" then handleStatusCommand chatId
     else handleTextMessage chatId text message)
    (fun _ => log Env.Error "Message handling failed";; ret false).

Definition handleEditedMessage (message : value) : M bool :=
  try_catch
    (do chat <- field message "chat";
     do chatId <- field chat "id";
     do result <-
       api (TelegramAPI.sendMessage chatId
              (Plain "I noticed you edited your message. I don't process edited messages, but feel free to send a new one!"));
     ret (TelegramAPI.success result))
    (fun _ => log Env.Error "Edited message handling failed";; ret false).

Definition handleCallbackQuery (callbackQuery : value) : M bool :=
  try_catch
    (do message <- field callbackQuery "message";
     let chatId := optprop (optprop message "chat") "id" in
     do data <- field callbackQuery "data";
     do id <- field callbackQuery "id";
     do shown <- lift (toString data);
     do _ <- api (TelegramAPI.answerCallbackQuery id
                    (Some (Plain ("You clicked: " +:+ shown))));
     if truthy chatId then
       do shown <- lift (toString data);
       do result <- api (TelegramAPI.sendMessage chatId
                           (Plain ("Button clicked: " +:+ shown)));
       ret (TelegramAPI.success result)
     else ret true)
    (fun _ => log Env.Error "Callback query handling failed";; ret false).

Definition handleInlineQuery (inlineQuery : value) : M bool :=
  try_catch
    (do query <- field inlineQuery "query";
     do shown <- lift (toString query);
     do id <- field inlineQuery "id";
     do result <- api (TelegramAPI.answerInlineQuery id
                         ("You searched for: " +:+ shown));
     ret (TelegramAPI.success result))
    (fun _ => log Env.Error "Inline query handling failed";; ret false).

Definition handleChannelPost (post : value) : M bool :=
  do chat <- field post "chat";
  do chatId <- field chat "id";
  log Env.Info "Channel post received";;
  ret true.

Definition handleChatMemberUpdate (update : value) : M bool :=
  try_catch
    (do chat <- field update "chat";
     do chatId <- field chat "id";
     do new_chat_member <- field update "new_chat_member";
     do newStatus <- field new_chat_member "status";
     if is_string newStatus "member" then
       do result <-
         api (TelegramAPI.sendMessage chatId
                (Plain "Thanks for adding me to this chat! Type /help to see what I can do."));
       ret (TelegramAPI.success result)
     else ret true)
    (fun _ => log Env.Error "Chat member update handling failed";; ret false).

(** The chain of [if (update.message) ... else if ...] that sets [handled]. *)
Definition dispatch (update : value) : M bool :=
  do message <- field update "message";
  if truthy message then handleMessage message else
  do edited_message <- field update "edited_message";
  if truthy edited_message then handleEditedMessage edited_message else
  do callback_query <- field update "callback_query";
  if truthy callback_query then handleCallbackQuery callback_query else
  do inline_query <- field update "inline_query";
  if truthy inline_query then handleInlineQuery inline_query else
  do channel_post <- field update "channel_post";
  if truthy channel_post then handleChannelPost channel_post else
  do my_chat_member <- field update "my_chat_member";
  if truthy my_chat_member then handleChatMemberUpdate my_chat_member else
  ret false.

(** [async handleWebhook(update)] *)
Definition handleWebhook (update : value) : M unit :=
  try_catch
    (do updateId <- field update "update_id";
     do type <- getUpdateType update;
     log Env.Info "Received webhook update";;
     StatsManager.recordUpdate update;;
     do chatId <- extractChatId update;
     do throttled <- (if truthy chatId then isThrottled chatId else ret false);
     if throttled then log Env.Warn "User throttled"
     else
       do handled <- dispatch update;
       if (negb handled && truthy chatId)%bool then
         sendFallbackMessage chatId UNSURE_MESSAGE
       else ret tt)
    (fun _ =>
       log Env.Error "Webhook handling failed";;
       do chatId <- extractChatId update;
       if truthy chatId then sendFallbackMessage chatId FALLBACK_MESSAGE
       else ret tt).

(** *** Vocabulary for the properties of the dispatcher *)

(** The throttle check of [chatId] made when the clock reads [t]; a check
    that throws does not throttle. *)
Definition throttled_at (chatId : value) (t : Z) (s : State) : bool * State :=
  let s := {| cache := cache s; circuitBreaker := circuitBreaker s;
              env := Env.at_time t (env s) |} in
  match isThrottled chatId s with
  | (Normal b, s') => (b, s')
  | (Abrupt _, s') => (false, s')
  end.

(** Successive checks of the same chat at the instants [ts]. *)
Fixpoint arrivals (chatId : value) (ts : list Z) (s : State) : list bool * State :=
  match ts with
  | [] => ([], s)
  | t :: ts' =>
      let '(b, s1) := throttled_at chatId t s in
      let '(bs, s2) := arrivals chatId ts' s1 in
      (b :: bs, s2)
  end.

(** Lines 36-46 of [handleWebhook]: everything up to and including the
    throttle check.  The result is the chat id and whether the update is
    dropped as throttled. *)
Definition admission (update : value) : M (value * bool) :=
  do updateId <- field update "update_id";
  do type <- getUpdateType update;
  log Env.Info "Received webhook update";;
  StatsManager.recordUpdate update;;
  do chatId <- extractChatId update;
  do throttled <- (if truthy chatId then isThrottled chatId else ret false);
  ret (chatId, throttled).

(** The update is dropped by the throttle check. *)
Definition throttled (update : value) (s : State) : bool :=
  match admission update s with
  | (Normal (_, b), _) => b
  | (Abrupt _, _) => false
  end.

(** What follows the throttle check for an update that passed it. *)
Definition respond (update chatId : value) : M unit :=
  do handled <- dispatch update;
  if (negb handled && truthy chatId)%bool then
    sendFallbackMessage chatId UNSURE_MESSAGE
  else ret tt.

(** The [catch] block of [handleWebhook]. *)
Definition recover (update : value) : M unit :=
  log Env.Error "Webhook handling failed";;
  do chatId <- extractChatId update;
  if truthy chatId then sendFallbackMessage chatId FALLBACK_MESSAGE
  else ret tt.

(** The variants of an update: the first populated field, in the order the
    dispatcher looks at them, names the variant. *)
Module Kind.
Inductive t : Type :=
| message | edited_message | callback_query | inline_query
| channel_post | my_chat_member | other.
End Kind.

Definition classify (update : value) : Kind.t :=
  if truthy (optprop update "message") then Kind.message
  else if truthy (optprop update "edited_message") then Kind.edited_message
  else if truthy (optprop update "callback_query") then Kind.callback_query
  else if truthy (optprop update "inline_query") then Kind.inline_query
  else if truthy (optprop update "channel_post") then Kind.channel_post
  else if truthy (optprop update "my_chat_member") then Kind.my_chat_member
  else Kind.other.


(** A [sendMessage] to [chat] noted with the outcome [ok]. *)
Definition sent (chat : value) (text : Text) (ok : bool) : string * Params * bool :=
  ("sendMessage", SendMessage chat text, ok).


(** The chat id of an update, as [extractChatId] finds it. *)
Definition chat_of (update : value) (s : State) : completion value :=
  (extractChatId update s).1.

(** Arrivals that each come no later than 60 s after the one before. *)
Fixpoint paced (prev : Z) (ts : list Z) : Prop :=
  match ts with
  | [] => True
  | t :: ts' => t <= prev + 60000 /\ paced t ts'
  end.

(** The entry of the throttle counter of a chat, if it has one. *)
Definition throttle_entry (id : string) (s : State)
  : option (CacheManager.CacheItem Stored) :=
  cache s !! ("throttle:" +:+ id).

End WebhookHandler.


(** ** Concrete worlds and updates for the examples *)

Module Scenario.
Import Js Wire.

(** A network that gives the listed replies in turn, each after 100 ms,
    and [otherwise] from then on. *)
Definition answering (replies : list Reply) (otherwise : Reply) (n : nat) : Attempt :=
  {| latency := 100; reply := nth n replies otherwise |}.

Definition world (now : Z) (net : nat -> Attempt) : Env.t :=
  {| Env.now := now; Env.net := net; Env.cursor := 0; Env.io := [];
     Env.calls := []; Env.logs := [] |}.

Definition too_many_requests : Reply :=
  ApiError (Some 429) (Some "Too Many Requests: retry after 2").

Definition server_error : Reply :=
  ApiError (Some 500) (Some "Internal Server Error").

Definition accepted : Reply := Ok (Bool true).

(** Every request is answered with 429. *)
Definition rate_limiting : nat -> Attempt := answering [] too_many_requests.

(** Every request is answered with 500. *)
Definition failing : nat -> Attempt := answering [] server_error.

(** Every request succeeds. *)
Definition healthy : nat -> Attempt := answering [] accepted.

Definition update_of (fields : list (string * value)) : value :=
  Obj (("update_id", Num 1) :: fields).

Definition chat42 : value := Obj [("id", Num 42)].

(** The scenarios of the design document. *)
Definition start_message : value :=
  update_of [("message", Obj [("chat", chat42); ("from", Obj [("id", Num 7)]);
                              ("text", Str "/start")])].


(** A message without its [chat] field. *)
Definition message_without_chat : value :=
  update_of [("message", Obj [("text", Str "hi")])].


(** Updates that carry no chat id: an inline query, and a callback query
    without its message. *)
Definition inline_search : value :=
  update_of [("inline_query", Obj [("id", Str "q1"); ("query", Str "cats")])].

Definition bare_click : value :=
  update_of [("callback_query", Obj [("id", Str "cb2"); ("data", Str "Y")])].

(** The bot is added to chat 42, and removed from it. *)
Definition bot_added : value :=
  update_of [("my_chat_member",
              Obj [("chat", chat42); ("new_chat_member", Obj [("status", Str "member")])])].

Definition bot_removed : value :=
  update_of [("my_chat_member",
              Obj [("chat", chat42); ("new_chat_member", Obj [("status", Str "left")])])].

(** A post in channel 42. *)
Definition channel_news : value :=
  update_of [("channel_post", Obj [("chat", chat42); ("text", Str "news")])].

(** A message with no chat id, whose text is not a string. *)
Definition numeric_text : value :=
  update_of [("message", Obj [("chat", Obj []); ("text", Num 5)])].

(** A handler freshly constructed: empty cache, breaker closed. *)
Definition fresh (now : Z) (net : nat -> Attempt) : Handler.State :=
  {| Handler.cache := ∅; Handler.circuitBreaker := TelegramAPI.initial;
     Handler.env := world now net |}.

(** Ten updates of chat 42, one every six seconds from instant 0. *)
Definition burst : list Z :=
  [0; 6000; 12000; 18000; 24000; 30000; 36000; 42000; 48000; 54000].

(** [n] calls of [makeRequest] in a row, the first at [now], each started
    when the one before returns: the breaker and the clock at the end. *)
Fixpoint calls_in_a_row (n : nat) (net : nat -> Attempt)
    (b : TelegramAPI.CircuitBreaker) (now : Z) : TelegramAPI.CircuitBreaker * Z :=
  match n with
  | O => (b, now)
  | S n' =>
      let out := TelegramAPI.makeRequest "getMe" NoParams b (world now net) in
      calls_in_a_row n' net out.1.2 (Env.now out.2)
  end.

(** The breaker after five calls that failed every attempt, the first made
    at instant 0. *)
Definition tripped : TelegramAPI.CircuitBreaker * Z :=
  calls_in_a_row 5 failing TelegramAPI.initial 0.

End Scenario.

(** ** Calls of the gateway one after the other *)

Module Series.
Import Wire.

(** One call of [makeRequest]: its arguments and the world it is made in. *)
Record Call : Type := { method : string; params : Params; world : Env.t }.

(** The breaker after the calls of the list, made in turn. *)
Definition after_calls (calls : list Call) (b : TelegramAPI.CircuitBreaker)
  : TelegramAPI.CircuitBreaker :=
  fold_left
    (fun b call => (TelegramAPI.makeRequest (method call) (params call) b (world call)).1.2)
    calls b.

(** A world in which a call finds the network failing on each of its three
    attempts, the last one not with a rate-limit reply. *)
Definition exhausting (e : Env.t) : bool :=
  TelegramAPI.failed (TelegramAPI.upcoming e 0) &&
  TelegramAPI.failed (TelegramAPI.upcoming e 1) &&
  TelegramAPI.failed (TelegramAPI.upcoming e 2) &&
  negb (TelegramAPI.rate_limited (TelegramAPI.upcoming e 2)).

(** The text a failed attempt leaves in [lastError]. *)
Definition error_text (r : Reply) : string :=
  match r with
  | Ok _ => ""
  | ApiError _ description => TelegramAPI.or_string description "Unknown API error"
  | Thrown name code message =>
      if String.eqb name "AbortError" then "Request timeout"
      else if bool_decide (code = Some "ECONNRESET" \/ code = Some "ETIMEDOUT")
           then "Connection error"
           else message
  end.

(** The two shapes of a result: a payload and nothing else, or an error
    text and no payload. *)
Definition well_formed (r : TelegramAPI.APIResult) : Prop :=
  if TelegramAPI.success r
  then is_Some (TelegramAPI.data r) /\ TelegramAPI.error r = None /\
       TelegramAPI.retryAfter r = None
  else is_Some (TelegramAPI.error r) /\ TelegramAPI.data r = None.

(** The longest the iterations left can take when a request never lasts
    more than its 10 s timeout and no reply is a rate-limit one: the
    timeouts, and the backoff sleeps between attempts. *)
Fixpoint longest (remaining : nat) (attempt : Z) : Z :=
  match remaining with
  | O => 0
  | S n =>
      10000
      + (if attempt <? TelegramAPI.maxRetries then TelegramAPI.backoff attempt else 0)
      + longest n (attempt + 1)
  end.

End Series.

(** ** The shape of an update *)

Module Update.
Import Js Wire Handler WebhookHandler.

(** The object whose [chat] the dispatcher reads to find the chat id of
    an update: the first populated among the message, the edited message,
    the message a callback query carries, the channel post and the
    membership change; none for the other updates. *)
Definition chat_holder (update : value) : option value :=
  if truthy (optprop update "message") then Some (optprop update "message")
  else if truthy (optprop update "edited_message") then
    Some (optprop update "edited_message")
  else if truthy (optprop (optprop update "callback_query") "message") then
    Some (optprop (optprop update "callback_query") "message")
  else if truthy (optprop update "channel_post") then
    Some (optprop update "channel_post")
  else if truthy (optprop update "my_chat_member") then
    Some (optprop update "my_chat_member")
  else None.

(** The user id [handleMessage] reads, [message.from?.id], can be put in
    the key of the last-seen entry. *)
Definition sender_renders (message : value) : Prop :=
  truthy (optprop (optprop message "from") "id") = true ->
  exists id, toString (optprop (optprop message "from") "id") = Normal id.

(** The user the statistics attribute an update to, if any. *)
Definition sender (update : value) (s : State) : option string :=
  match (StatsManager.extractUserId update s).1 with
  | Normal (Some id) => if String.eqb id "" then None else Some id
  | _ => None
  end.

(** The key under which the activity of a user is noted. *)
Definition user_key (id : string) : string := "stats:user:" +:+ id.

(** *** What the handler of an update sends *)



(** The text [handleMessage] replies with, as far as the message decides
    it: the numbers of the status text and the instant of the time text
    come from the state. *)
Definition message_reply (message : value) (reply : Text) : Prop :=
  match or (optprop message "text") (Str "") with
  | Str text =>
      if startsWith text "/start" then reply = Welcome
      else if startsWith text "/help" then reply = Help
      else if startsWith text "/status" then
        exists totalMessages activeUsers, reply = Status totalMessages activeUsers
      else if startsWith (toLowerCase text) "/echo " then
        reply = Plain (substring_from 6 text)
      else if (includes (toLowerCase text) "hello" || includes (toLowerCase text) "hi")%bool then
        exists name,
          toString (or (optprop (optprop message "from") "first_name") (Str "there"))
            = Normal name /\
          reply = Hello name
      else if includes (toLowerCase text) "how are you" then
        reply = Plain "I'm doing great! Thanks for asking. How can I help you today?"
      else if includes (toLowerCase text) "time" then
        exists now, reply = CurrentTime now
      else reply = Received text
  | _ => False
  end.





(** The text of the reply to the chat, for the variants that reply. *)
Definition reply (update : value) (text : Text) : Prop :=
  match classify update with
  | Kind.message => message_reply (optprop update "message") text
  | Kind.edited_message =>
      text = Plain "I noticed you edited your message. I don't process edited messages, but feel free to send a new one!"
  | Kind.callback_query =>
      exists shown,
        toString (optprop (optprop update "callback_query") "data") = Normal shown /\
        text = Plain ("Button clicked: " +:+ shown)
  | Kind.my_chat_member =>
      text = Plain "Thanks for adding me to this chat! Type /help to see what I can do."
  | _ => False
  end.


End Update.

(** ** What a computation leaves untouched *)

Module Effects.
Import Handler.

(** Two states between which the process did nothing towards the outside
    but write to the console: no request was sent, no timer awaited, no
    method of the gateway called, and the breaker is as it was. *)
Definition same_world (s s' : State) : Prop :=
  circuitBreaker s' = circuitBreaker s /\
  Env.now (env s') = Env.now (env s) /\
  Env.net (env s') = Env.net (env s) /\
  Env.cursor (env s') = Env.cursor (env s) /\
  Env.io (env s') = Env.io (env s) /\
  Env.calls (env s') = Env.calls (env s).

(** A computation that works on the cache and the console only. *)
Definition quiet {A} (m : M A) : Prop := forall s, same_world s (m s).2.

(** A computation that does not touch the cache. *)
Definition hands_off {A} (m : M A) : Prop := forall s, cache (m s).2 = cache s.

(** The message counter holds [item]. *)
Definition counted (item : CacheManager.CacheItem Stored) (s : State) : Prop :=
  cache s !! "stats:total_messages" = Some item.

(** A computation that, started while the message counter is live, leaves
    it as it is. *)
Definition keeping (item : CacheManager.CacheItem Stored) {A} (m : M A) : Prop :=
  forall s, counted item s -> Env.now (env s) <= CacheManager.expiry item ->
            counted item (m s).2.

(** The same, for a computation that takes no time. *)
Definition careful (item : CacheManager.CacheItem Stored) {A} (m : M A) : Prop :=
  forall s, counted item s -> Env.now (env s) <= CacheManager.expiry item ->
            counted item (m s).2 /\ Env.now (env (m s).2) = Env.now (env s).

End Effects.

(** ** [server.ts]: the webhook route *)

Module Server.
Import Js Handler.
Local Open Scope handler_scope.

(** What the route hands to [res.status(...).json(...)]. *)
Record Response : Type := { status : Z; json : value }.

Definition unauthorized : Response :=
  {| status := 401; json := Obj [("error", Str "Unauthorized")] |}.

Definition acknowledged : Response :=
  {| status := 200; json := Obj [("ok", Bool true)] |}.

(** [app.post("/webhook/:secret", ...)], for a request whose path ends in
    [secret] and whose parsed body is [body]. *)
Definition webhook (WEBHOOK_SECRET secret : string) (body : value) : M Response :=
  try_catch
    (if negb (String.eqb secret WEBHOOK_SECRET) then
       log Env.Warn "Invalid webhook secret";;
       ret unauthorized
     else
       WebhookHandler.handleWebhook body;;
       ret acknowledged)
    (fun _ =>
       log Env.Error "Webhook processing failed";;
       ret acknowledged).

End Server.

(** * Properties *)

(** ** The resilient gateway *)

Section Gateway.
Import Wire TelegramAPI.

Lemma fetch_io method params e :
  Env.io (Env.fetch method params e).2 = Env.io e ++ [Env.Fetch method params].
Proof. reflexivity. Qed.

Lemma record_failure_result lastError b e :
  success (record_failure lastError b e).1.1 = false.
Proof. unfold record_failure. by destruct (_ >=? _). Qed.

Lemma record_failure_breaker lastError b e :
  let b' := (record_failure lastError b e).1.2 in
  failures b' = failures b + 1 /\ lastFailure b' = Env.now e /\
  state b' = (if failures b + 1 >=? 5 then open else state b).
Proof. unfold record_failure. by destruct (_ >=? _). Qed.

Lemma attempts_open_above remaining : forall attempt lastError method params b e,
  open_above_threshold b ->
  open_above_threshold (attempts remaining attempt lastError method params b e).1.2.
Proof.
  induction remaining as [|n IH]; intros attempt lastError method params b e Hb.
  - cbn [attempts]. unfold open_above_threshold.
    destruct (record_failure_breaker lastError b e) as (Hf & _ & Hs).
    rewrite Hf, Hs. destruct (Z.geb_spec (failures b + 1) 5); [lia|].
    intros Ho. specialize (Hb Ho). lia.
  - cbn [attempts]. destruct (Env.fetch method params e) as [r e1].
    destruct r as [result|code description|name code message].
    + cbn. unfold open_above_threshold. cbn. discriminate.
    + case_bool_decide.
      * destruct (attempt <? maxRetries); [by apply IH | exact Hb].
      * by apply IH.
    + by apply IH.
Qed.

Lemma attempts_tripped_above remaining : forall attempt lastError method params b e,
  tripped_above_threshold b ->
  tripped_above_threshold (attempts remaining attempt lastError method params b e).1.2.
Proof.
  induction remaining as [|n IH]; intros attempt lastError method params b e Hb.
  - cbn [attempts]. unfold tripped_above_threshold.
    destruct (record_failure_breaker lastError b e) as (Hf & _ & Hs).
    rewrite Hf, Hs. destruct (Z.geb_spec (failures b + 1) 5); [lia|].
    intros Ho. specialize (Hb Ho). lia.
  - cbn [attempts]. destruct (Env.fetch method params e) as [r e1].
    destruct r as [result|code description|name code message].
    + cbn. unfold tripped_above_threshold. cbn. congruence.
    + case_bool_decide.
      * destruct (attempt <? maxRetries); [by apply IH | exact Hb].
      * by apply IH.
    + by apply IH.
Qed.

Lemma attempts_success remaining : forall attempt lastError method params b e,
  let out := attempts remaining attempt lastError method params b e in
  success out.1.1 = true -> failures out.1.2 = 0 /\ state out.1.2 = closed.
Proof.
  induction remaining as [|n IH]; intros attempt lastError method params b e.
  - cbn [attempts]. cbv zeta. rewrite record_failure_result. discriminate.
  - cbn [attempts]. destruct (Env.fetch method params e) as [r e1].
    destruct r as [result|code description|name code message].
    + cbn. done.
    + case_bool_decide.
      * destruct (attempt <? maxRetries); [apply IH | cbn; discriminate].
      * apply IH.
    + apply IH.
Qed.

Lemma makeRequest_cases method params b e :
  (state b = open /\ Env.now e - lastFailure b < 30000 /\
   makeRequest method params b e =
     ({| success := false; data := None; error := Some "Circuit breaker is open";
         retryAfter := None |}, b, e))
  \/ (state b = open /\ 30000 <= Env.now e - lastFailure b /\
      makeRequest method params b e =
        attempts 3 1 "" method params
          {| failures := failures b; lastFailure := lastFailure b; state := half_open |} e)
  \/ (state b <> open /\
      makeRequest method params b e = attempts 3 1 "" method params b e).
Proof.
  unfold makeRequest. destruct (state b) eqn:Hs; cbn [is_open].
  - right; right. split; [discriminate | reflexivity].
  - destruct (Z.ltb_spec (Env.now e - lastFailure b) 30000).
    + left. done.
    + right; left. done.
  - right; right. split; [discriminate | reflexivity].
Qed.

Lemma makeRequest_open_above method params b e :
  open_above_threshold b -> open_above_threshold (makeRequest method params b e).1.2.
Proof.
  intros Hb.
  destruct (makeRequest_cases method params b e) as [(Ho & _ & ->)|[(Ho & _ & ->)|(Ho & ->)]].
  - exact Hb.
  - apply attempts_open_above. unfold open_above_threshold. cbn. discriminate.
  - by apply attempts_open_above.
Qed.

Lemma makeRequest_tripped_above method params b e :
  tripped_above_threshold b -> tripped_above_threshold (makeRequest method params b e).1.2.
Proof.
  intros Hb.
  destruct (makeRequest_cases method params b e) as [(Ho & _ & ->)|[(Ho & _ & ->)|(Ho & ->)]].
  - exact Hb.
  - apply attempts_tripped_above. unfold tripped_above_threshold. cbn.
    intros _. apply Hb. congruence.
  - by apply attempts_tripped_above.
Qed.

Lemma reachable_tripped_above b : reachable b -> tripped_above_threshold b.
Proof.
  induction 1 as [|method params b e _ IH].
  - unfold tripped_above_threshold. cbn. congruence.
  - by apply makeRequest_tripped_above.
Qed.

Lemma reachable_open_above b : reachable b -> open_above_threshold b.
Proof.
  intros H Ho. apply (reachable_tripped_above b H). congruence.
Qed.

Lemma makeRequest_success method params b e :
  success (makeRequest method params b e).1.1 = true ->
  failures (makeRequest method params b e).1.2 = 0 /\
  state (makeRequest method params b e).1.2 = closed.
Proof.
  destruct (makeRequest_cases method params b e) as [(Ho & _ & ->)|[(Ho & _ & ->)|(Ho & ->)]].
  - cbn. discriminate.
  - apply attempts_success.
  - apply attempts_success.
Qed.

(** One iteration that fails before the last: the loop goes on after a
    request and a sleep. *)
Lemma attempts_retry remaining attempt lastError method params b e :
  attempt < maxRetries ->
  failed (upcoming e 0) = true ->
  exists lastError' e' d,
    attempts (S remaining) attempt lastError method params b e =
      attempts remaining (attempt + 1) lastError' method params b e' /\
    Env.cursor e' = S (Env.cursor e) /\
    Env.net e' = Env.net e /\
    Env.calls e' = Env.calls e /\
    Env.io e' = Env.io e ++ [Env.Fetch method params; Env.Sleep d] /\
    (rate_limited (upcoming e 0) = false -> d = backoff attempt).
Proof.
  unfold upcoming. replace (Env.cursor e + 0)%nat with (Env.cursor e) by lia.
  intros Hlt Hf. cbn [attempts]. unfold Env.fetch.
  apply Z.ltb_lt in Hlt.
  destruct (reply (Env.net e (Env.cursor e))) as [?|code description|name code message];
    [discriminate Hf| |].
  - cbn [rate_limited]. case_bool_decide as Hc; rewrite Hlt.
    + eexists _, _, _. split; [reflexivity|].
      cbn. rewrite <- app_assoc. repeat split; done.
    + eexists _, _, _. split; [reflexivity|].
      cbn. rewrite <- app_assoc. repeat split; done.
  - rewrite Hlt. eexists _, _, _. split; [reflexivity|].
    cbn. rewrite <- app_assoc. repeat split; done.
Qed.

(** The last iteration, failing: one request, no sleep, a failed result. *)
Lemma attempts_last lastError method params b e :
  failed (upcoming e 0) = true ->
  let out := attempts 1 maxRetries lastError method params b e in
  success out.1.1 = false /\
  Env.cursor out.2 = S (Env.cursor e) /\
  Env.calls out.2 = Env.calls e /\
  Env.io out.2 = Env.io e ++ [Env.Fetch method params].
Proof.
  unfold upcoming. replace (Env.cursor e + 0)%nat with (Env.cursor e) by lia.
  intros Hf. cbn [attempts]. unfold Env.fetch.
  replace (maxRetries <? maxRetries) with false by reflexivity.
  destruct (reply (Env.net e (Env.cursor e))) as [?|code description|name code message];
    [discriminate Hf| |]; cbv zeta.
  - case_bool_decide; [cbn; done|].
    unfold record_failure. destruct (_ >=? _); cbn; done.
  - unfold record_failure. destruct (_ >=? _); cbn; done.
Qed.

(** The loop entered with three iterations left, against three failing
    replies: three requests, two sleeps, and a failed result. *)
Lemma attempts_all_fail method params b e :
  failed (upcoming e 0) = true ->
  failed (upcoming e 1) = true ->
  failed (upcoming e 2) = true ->
  let out := attempts 3 1 "" method params b e in
  success out.1.1 = false /\
  Env.cursor out.2 = (Env.cursor e + 3)%nat /\
  Env.calls out.2 = Env.calls e /\
  exists d1 d2,
    Env.io out.2 =
      Env.io e ++ [Env.Fetch method params; Env.Sleep d1;
                   Env.Fetch method params; Env.Sleep d2;
                   Env.Fetch method params] /\
    (rate_limited (upcoming e 0) = false -> d1 = backoff 1) /\
    (rate_limited (upcoming e 1) = false -> d2 = backoff 2).
Proof.
  intros H1 H2 H3. cbv zeta.
  destruct (attempts_retry 2 1 "" method params b e) as
    (l1 & e1 & d1 & -> & Hc1 & Hn1 & Hq1 & Hio1 & Hd1); [done..|].
  assert (Hup : forall k, upcoming e1 k = upcoming e (S k)).
  { intros k. unfold upcoming. rewrite Hn1, Hc1. f_equal. f_equal. lia. }
  destruct (attempts_retry 1 (1 + 1) l1 method params b e1) as
    (l2 & e2 & d2 & -> & Hc2 & Hn2 & Hq2 & Hio2 & Hd2);
    [done | by rewrite Hup |].
  assert (Hup2 : forall k, upcoming e2 k = upcoming e (S (S k))).
  { intros k. unfold upcoming. rewrite Hn2, Hc2, Hn1, Hc1. f_equal. f_equal. lia. }
  destruct (attempts_last l2 method params b e2) as (Hs & Hc3 & Hq3 & Hio3);
    [by rewrite Hup2|].
  change (1 + 1 + 1) with maxRetries.
  split; [exact Hs|]. split; [rewrite Hc3, Hc2, Hc1; lia|].
  split; [by rewrite Hq3, Hq2, Hq1|].
  exists d1, d2. split; [|split].
  - rewrite Hio3, Hio2, Hio1, <- !app_assoc. reflexivity.
  - exact Hd1.
  - rewrite <- Hup. exact Hd2.
Qed.

(** The loop does not call [makeRequest] again, and only moves the clock
    forward through its requests and sleeps. *)
Lemma attempts_requests remaining : forall attempt lastError method params b e,
  Env.calls (attempts remaining attempt lastError method params b e).2 =
  Env.calls e.
Proof.
  induction remaining as [|n IH]; intros attempt lastError method params b e.
  - cbn [attempts]. unfold record_failure. by destruct (_ >=? _).
  - cbn [attempts]. unfold Env.fetch.
    destruct (reply _) as [result|code description|name code message]; cbv zeta.
    + reflexivity.
    + case_bool_decide.
      * destruct (attempt <? maxRetries); [by rewrite IH | reflexivity].
      * destruct (attempt <? maxRetries); by rewrite IH.
    + destruct (attempt <? maxRetries); by rewrite IH.
Qed.

Lemma makeRequest_calls method params b e :
  Env.calls (makeRequest method params b e).2 = Env.calls e.
Proof.
  destruct (makeRequest_cases method params b e) as [(_ & _ & ->)|[(_ & _ & ->)|(_ & ->)]].
  - reflexivity.
  - by rewrite attempts_requests.
  - by rewrite attempts_requests.
Qed.

(** Each call of a public method is noted once, with the outcome it
    returns. *)
Lemma method_call_calls method params b e :
  Env.calls (method_call method params b e).2 =
  Env.calls e ++ [(method, params, success (method_call method params b e).1.1)].
Proof. unfold method_call. cbn. by rewrite makeRequest_calls. Qed.

(** Once admitted, a call starts with a request to the network. *)
Lemma attempts_first_fetch remaining attempt lastError method params b e :
  exists rest,
    Env.io (attempts (S remaining) attempt lastError method params b e).2 =
    Env.io e ++ Env.Fetch method params :: rest.
Proof.
  assert (Hmono : forall n a l b0 e0, exists rest,
            Env.io (attempts n a l method params b0 e0).2 = Env.io e0 ++ rest).
  { induction n as [|n IH]; intros a l b0 e0.
    - cbn [attempts]. unfold record_failure. exists [].
      destruct (_ >=? _); cbn; by rewrite app_nil_r.
    - cbn [attempts]. unfold Env.fetch.
      destruct (reply _) as [result|code description|name code message]; cbv zeta.
      + by eexists.
      + case_bool_decide.
        * destruct (a <? maxRetries).
          -- edestruct IH as [rest ->]. cbn. rewrite <- !app_assoc. by eexists.
          -- by eexists.
        * destruct (a <? maxRetries); edestruct IH as [rest ->]; cbn;
            rewrite <- ?app_assoc; by eexists.
      + destruct (a <? maxRetries); edestruct IH as [rest ->]; cbn;
          rewrite <- ?app_assoc; by eexists. }
  cbn [attempts]. unfold Env.fetch.
  destruct (reply _) as [result|code description|name code message]; cbv zeta.
  - by exists [].
  - case_bool_decide.
    + destruct (attempt <? maxRetries).
      * edestruct Hmono as [rest ->]. cbn. rewrite <- !app_assoc. by eexists.
      * by exists [].
    + destruct (attempt <? maxRetries); edestruct Hmono as [rest ->]; cbn;
        rewrite <- ?app_assoc; by eexists.
  - destruct (attempt <? maxRetries); edestruct Hmono as [rest ->]; cbn;
      rewrite <- ?app_assoc; by eexists.
Qed.

(** C7.  A call that the breaker admits and whose three attempts all fail
    issues exactly three requests, sleeps between consecutive attempts for
    [min (1000 * 2^(attempt-1)) 5000] ms, that is 1000 ms then 2000 ms
    (a rate-limited attempt sleeps for the advertised delay instead),
    and returns a result with [success = false]. *)
Theorem retry_backoff_schedule method params b e :
  admits b (Env.now e) = true ->
  failed (upcoming e 0) = true ->
  failed (upcoming e 1) = true ->
  failed (upcoming e 2) = true ->
  let out := makeRequest method params b e in
  success out.1.1 = false /\
  Env.cursor out.2 = (Env.cursor e + 3)%nat /\
  exists d1 d2,
    Env.io out.2 =
      Env.io e ++ [Env.Fetch method params; Env.Sleep d1;
                   Env.Fetch method params; Env.Sleep d2;
                   Env.Fetch method params] /\
    (rate_limited (upcoming e 0) = false ->
       d1 = Z.min (1000 * 2 ^ (1 - 1)) 5000 /\ d1 = 1000) /\
    (rate_limited (upcoming e 1) = false ->
       d2 = Z.min (1000 * 2 ^ (2 - 1)) 5000 /\ d2 = 2000).
Proof.
  intros Ha H1 H2 H3. cbv zeta.
  assert (Hloop : forall b0,
    let out := attempts 3 1 "" method params b0 e in
    success out.1.1 = false /\
    Env.cursor out.2 = (Env.cursor e + 3)%nat /\
    exists d1 d2,
      Env.io out.2 =
        Env.io e ++ [Env.Fetch method params; Env.Sleep d1;
                     Env.Fetch method params; Env.Sleep d2;
                     Env.Fetch method params] /\
      (rate_limited (upcoming e 0) = false ->
         d1 = Z.min (1000 * 2 ^ (1 - 1)) 5000 /\ d1 = 1000) /\
      (rate_limited (upcoming e 1) = false ->
         d2 = Z.min (1000 * 2 ^ (2 - 1)) 5000 /\ d2 = 2000)).
  { intros b0.
    destruct (attempts_all_fail method params b0 e)
      as (Hs & Hc & _ & d1 & d2 & Hio & Hd1 & Hd2); [done..|].
    cbv zeta. split; [exact Hs|]. split; [exact Hc|].
    exists d1, d2. split; [exact Hio|].
    split; intros Hr; [rewrite (Hd1 Hr) | rewrite (Hd2 Hr)]; done. }
  destruct (makeRequest_cases method params b e) as [(Ho & Hlt & _)|[(Ho & _ & ->)|(Ho & ->)]].
  - unfold admits in Ha. rewrite Ho in Ha. cbn in Ha.
    apply Z.leb_le in Ha. lia.
  - apply Hloop.
  - apply Hloop.
Qed.

Lemma retry_backoff_schedule_witness :
  let out := makeRequest "sendMessage" NoParams initial
               (Scenario.world 0 Scenario.failing) in
  success out.1.1 = false /\
  Env.cursor out.2 = 3%nat /\
  exists d1 d2,
    Env.io out.2 =
      [Env.Fetch "sendMessage" NoParams; Env.Sleep d1;
       Env.Fetch "sendMessage" NoParams; Env.Sleep d2;
       Env.Fetch "sendMessage" NoParams] /\
    (rate_limited Scenario.server_error = false ->
       d1 = Z.min (1000 * 2 ^ (1 - 1)) 5000 /\ d1 = 1000) /\
    (rate_limited Scenario.server_error = false ->
       d2 = Z.min (1000 * 2 ^ (2 - 1)) 5000 /\ d2 = 2000).
Proof.
  apply (retry_backoff_schedule "sendMessage" NoParams initial
           (Scenario.world 0 Scenario.failing)); reflexivity.
Defined.

(** C5, as the code has it.  With the breaker [open]:
    - less than 30 s after [lastFailure] the call returns at once with
      [success = false] and the error text [Circuit breaker is open], issues
      no request, takes no sleep, and leaves the breaker (and so the failure
      count) as it was;
    - from 30 s on, the breaker becomes [half_open] and the retry loop is
      entered, starting with a request to the network. *)
Theorem breaker_open_gate method params b e :
  state b = open ->
  (Env.now e - lastFailure b < 30000 ->
     let out := makeRequest method params b e in
     success out.1.1 = false /\
     error out.1.1 = Some "Circuit breaker is open" /\
     out.1.2 = b /\
     Env.io out.2 = Env.io e /\
     Env.cursor out.2 = Env.cursor e /\
     Env.now out.2 = Env.now e) /\
  (30000 <= Env.now e - lastFailure b ->
     makeRequest method params b e =
       attempts 3 1 "" method params
         {| failures := failures b; lastFailure := lastFailure b; state := half_open |}
         e /\
     exists rest,
       Env.io (makeRequest method params b e).2 =
       Env.io e ++ Env.Fetch method params :: rest).
Proof.
  intros Ho. split; intros Ht.
  - destruct (makeRequest_cases method params b e) as [(_ & _ & ->)|[(_ & Hge & _)|(Hn & _)]];
      [done | lia | done].
  - destruct (makeRequest_cases method params b e) as [(_ & Hlt & _)|[(_ & _ & ->)|(Hn & _)]];
      [lia | | done].
    split; [reflexivity|].
    destruct (attempts_first_fetch 2 1 "" method params
                {| failures := failures b; lastFailure := lastFailure b;
                   state := half_open |} e) as [rest Hrest].
    exists rest. exact Hrest.
Qed.

Lemma breaker_open_gate_witness :
  let b := {| failures := 5; lastFailure := 1000; state := open |} in
  (let out := makeRequest "sendMessage" NoParams b (Scenario.world 2000 Scenario.healthy) in
   success out.1.1 = false /\
   error out.1.1 = Some "Circuit breaker is open" /\
   out.1.2 = b /\
   Env.io out.2 = [] /\ Env.cursor out.2 = 0%nat /\ Env.now out.2 = 2000) /\
  (exists rest,
     Env.io (makeRequest "sendMessage" NoParams b
               (Scenario.world 31000 Scenario.healthy)).2 =
     [] ++ Env.Fetch "sendMessage" NoParams :: rest).
Proof.
  split.
  - destruct (breaker_open_gate "sendMessage" NoParams
                {| failures := 5; lastFailure := 1000; state := open |}
                (Scenario.world 2000 Scenario.healthy) eq_refl) as [Hearly _].
    apply Hearly. simpl. lia.
  - destruct (breaker_open_gate "sendMessage" NoParams
                {| failures := 5; lastFailure := 1000; state := open |}
                (Scenario.world 31000 Scenario.healthy) eq_refl) as [_ Hlate].
    apply Hlate. simpl. lia.
Defined.

(** C5 as worded: the error of the fast-fail path is not the text
    [circuit breaker open]. *)
Lemma breaker_open_error_text :
  let b := {| failures := 5; lastFailure := 1000; state := open |} in
  let out := makeRequest "sendMessage" NoParams b (Scenario.world 2000 Scenario.healthy) in
  state b = open /\ Env.now (Scenario.world 2000 Scenario.healthy) - lastFailure b < 30000 /\
  error out.1.1 <> Some "circuit breaker open".
Proof. cbn. split; [reflexivity|]. split; [lia | discriminate]. Qed.

(** C6.  Every breaker state reachable from the initial one satisfies
    [state = open -> failures >= 5], one more call preserves it, and a call
    that returns [success = true], from any state whatever, leaves
    [failures = 0] and [state = closed]. *)
Theorem breaker_invariant method params b e :
  reachable b ->
  open_above_threshold b /\
  open_above_threshold (makeRequest method params b e).1.2 /\
  (forall method0 params0 b0 e0,
     success (makeRequest method0 params0 b0 e0).1.1 = true ->
     failures (makeRequest method0 params0 b0 e0).1.2 = 0 /\
     state (makeRequest method0 params0 b0 e0).1.2 = closed).
Proof.
  intros Hr. split; [by apply reachable_open_above|].
  split; [by apply makeRequest_open_above, reachable_open_above|].
  intros. by apply makeRequest_success.
Qed.

Lemma breaker_invariant_witness :
  let b := (makeRequest "sendMessage" NoParams initial
              (Scenario.world 0 Scenario.failing)).1.2 in
  let e := Scenario.world 9000 Scenario.healthy in
  open_above_threshold b /\
  open_above_threshold (makeRequest "getMe" NoParams b e).1.2 /\
  (failures (makeRequest "getMe" NoParams b e).1.2 = 0 /\
   state (makeRequest "getMe" NoParams b e).1.2 = closed).
Proof.
  pose proof (breaker_invariant "getMe" NoParams
    (makeRequest "sendMessage" NoParams initial (Scenario.world 0 Scenario.failing)).1.2
    (Scenario.world 9000 Scenario.healthy)
    (reachable_call _ _ _ _ reachable_initial)) as (H1 & H2 & H3).
  split; [exact H1|]. split; [exact H2|].
  apply H3. reflexivity.
Defined.

Lemma rate_limited_failed r : rate_limited r = true -> failed r = true.
Proof. by destruct r. Qed.

(** What the 429 branch of the last iteration does, in general: the call
    fails with the advertised delay, and the breaker record is returned as
    the loop received it. *)
Lemma rate_limit_exhausted method params b e :
  rate_limited (upcoming e 0) = true ->
  rate_limited (upcoming e 1) = true ->
  rate_limited (upcoming e 2) = true ->
  let out := attempts 3 1 "" method params b e in
  success out.1.1 = false /\ is_Some (retryAfter out.1.1) /\ out.1.2 = b.
Proof.
  intros H1 H2 H3. cbv zeta.
  destruct (attempts_retry 2 1 "" method params b e) as
    (l1 & e1 & d1 & -> & Hc1 & Hn1 & _ & _ & _);
    [done | by apply rate_limited_failed |].
  assert (Hup : forall k, upcoming e1 k = upcoming e (S k)).
  { intros k. unfold upcoming. rewrite Hn1, Hc1. f_equal. f_equal. lia. }
  destruct (attempts_retry 1 (1 + 1) l1 method params b e1) as
    (l2 & e2 & d2 & -> & Hc2 & Hn2 & _ & _ & _);
    [done | by rewrite Hup; apply rate_limited_failed |].
  assert (Hup2 : upcoming e2 0 = upcoming e 2).
  { unfold upcoming. rewrite Hn2, Hc2, Hn1, Hc1. f_equal. f_equal. lia. }
  rewrite <- Hup2 in H3. revert H3. unfold upcoming.
  replace (Env.cursor e2 + 0)%nat with (Env.cursor e2) by lia.
  cbn [attempts]. unfold Env.fetch.
  replace (1 + 1 + 1 <? maxRetries) with false by reflexivity.
  destruct (reply _) as [?|code description|name code message]; intros H3;
    try discriminate H3; cbv zeta.
  cbn [rate_limited] in H3. rewrite H3. cbn. eauto.
Qed.

(** C4 at three 429 replies.  The call fails and carries the delay parsed
    from the description, but [failures] stays at 0; the same call against
    three 500 replies counts one failure. *)
Theorem rate_limit_exhaustion_not_counted :
  let limited := makeRequest "sendMessage" NoParams initial
                   (Scenario.world 0 Scenario.rate_limiting) in
  let broken := makeRequest "sendMessage" NoParams initial
                  (Scenario.world 0 Scenario.failing) in
  Env.cursor limited.2 = 3%nat /\
  limited.1.1 = {| success := false; data := None;
                   error := Some "Too Many Requests: retry after 2";
                   retryAfter := Some 2 |} /\
  failures limited.1.2 = 0 /\
  Env.cursor broken.2 = 3%nat /\
  success broken.1.1 = false /\
  failures broken.1.2 = 1.
Proof. vm_compute. done. Qed.

(** A probe from [half_open] whose attempts all fail, the last one not on
    the rate-limit path, with the threshold already met: the breaker is
    [open] again, [lastFailure] is the instant the probe gave up, and a call
    made less than 30 s after that instant is refused without touching the
    breaker. *)
Lemma failed_probe_reopens method params b e :
  state b = half_open ->
  5 <= failures b ->
  failed (upcoming e 0) = true ->
  failed (upcoming e 1) = true ->
  failed (upcoming e 2) = true ->
  rate_limited (upcoming e 2) = false ->
  let out := attempts 3 1 "" method params b e in
  state out.1.2 = open /\ lastFailure out.1.2 = Env.now out.2 /\
  forall method' params' e',
    Env.now e' - Env.now out.2 < 30000 ->
    (makeRequest method' params' out.1.2 e').1.2 = out.1.2 /\
    Env.io (makeRequest method' params' out.1.2 e').2 = Env.io e'.
Proof.
  intros Hs Hf H1 H2 H3 Hr. cbv zeta.
  destruct (attempts_retry 2 1 "" method params b e) as
    (l1 & e1 & d1 & -> & Hc1 & Hn1 & _ & _ & _); [done..|].
  assert (Hup : forall k, upcoming e1 k = upcoming e (S k)).
  { intros k. unfold upcoming. rewrite Hn1, Hc1. f_equal. f_equal. lia. }
  destruct (attempts_retry 1 (1 + 1) l1 method params b e1) as
    (l2 & e2 & d2 & -> & Hc2 & Hn2 & _ & _ & _); [done | by rewrite Hup |].
  assert (Hup2 : upcoming e2 0 = upcoming e 2).
  { unfold upcoming. rewrite Hn2, Hc2, Hn1, Hc1. f_equal. f_equal. lia. }
  rewrite <- Hup2 in H3, Hr. clear Hup Hup2.
  assert (Hout : exists lastError e3,
            attempts 1 (1 + 1 + 1) l2 method params b e2 = record_failure lastError b e3).
  { revert H3 Hr. unfold upcoming.
    replace (Env.cursor e2 + 0)%nat with (Env.cursor e2) by lia.
    cbn [attempts]. unfold Env.fetch.
    replace (1 + 1 + 1 <? maxRetries) with false by reflexivity.
    destruct (reply _) as [?|code description|name code message]; intros H3 Hr;
      [discriminate H3| |]; cbv zeta.
    - cbn [rate_limited] in Hr. rewrite Hr. by eexists _, _.
    - by eexists _, _. }
  destruct Hout as (lastError & e3 & ->).
  unfold record_failure. destruct (Z.geb_spec (failures b + 1) 5) as [_|Hlt]; [|lia].
  cbn [fst snd state lastFailure Env.now Env.log].
  split; [reflexivity|]. split; [reflexivity|].
  intros method' params' e' Ht.
  set (b' := {| failures := failures b + 1; lastFailure := Env.now e3; state := open |}).
  destruct (makeRequest_cases method' params' b' e') as [(_ & _ & ->)|[(_ & Hge & _)|(Hn & _)]].
  - done.
  - cbn in Hge. lia.
  - done.
Qed.

(** C10 at a probe that is rate-limited on every attempt.  Five failed
    calls open the breaker; 30 s after the last failure a call is let
    through as the probe, and fails on three 429 replies.  The breaker is
    left [half_open] with the old [lastFailure], and the very next call goes
    to the network instead of being refused. *)
Theorem rate_limited_probe_stays_half_open :
  let b := Scenario.tripped.1 in
  let t := Scenario.tripped.2 in
  let probe := makeRequest "sendMessage" NoParams b
                 (Scenario.world (t + 30000) Scenario.rate_limiting) in
  let next := makeRequest "sendMessage" NoParams probe.1.2
                (Scenario.world (Env.now probe.2) Scenario.rate_limiting) in
  state b = open /\ failures b = 5 /\ lastFailure b = t /\
  success probe.1.1 = false /\
  Env.cursor probe.2 = 3%nat /\
  state probe.1.2 = half_open /\
  lastFailure probe.1.2 = t /\
  Env.now probe.2 - t >= 30000 /\
  Env.cursor next.2 = 3%nat.
Proof. vm_compute. repeat split; discriminate. Qed.

End Gateway.

(** ** The TTL store *)

Section Store.
Import CacheManager.
Context {V : Type}.
Implicit Types (c : gmap string (CacheItem V)) (k : string) (v : V).

Lemma get_live c k item t :
  c !! k = Some item -> t <= expiry item -> get c k t = (Some (value item), c).
Proof.
  intros Hk Ht. unfold get. rewrite Hk.
  destruct (Z.gtb_spec t (expiry item)); [lia | reflexivity].
Qed.

Lemma get_expired c k item t :
  c !! k = Some item -> expiry item < t -> get c k t = (None, base.delete k c).
Proof.
  intros Hk Ht. unfold get. rewrite Hk.
  destruct (Z.gtb_spec t (expiry item)); [reflexivity | lia].
Qed.

Lemma get_absent c k t : c !! k = None -> get c k t = (None, c).
Proof. intros Hk. unfold get. by rewrite Hk. Qed.

Lemma has_agrees_with_get c k t :
  (has c k t).1 = bool_decide (is_Some (get c k t).1) /\ (has c k t).2 = (get c k t).2.
Proof.
  unfold has, get. destruct (c !! k) as [item|]; [|done].
  destruct (t >? expiry item); cbn; split; done.
Qed.

(** C9.  After [set(k, v, ttl)] with [ttl > 0], made at instant [now]:
    - a [get(k)] at that instant, and at any instant up to the expiry
      [now + ttl * 1000], returns [v] and leaves the cache alone;
    - at any instant strictly after the expiry, [get(k)] returns the absent
      sentinel and [has(k)] returns [false], and either read removes the
      entry from the cache. *)
Theorem set_get_expire c k v ttl now :
  0 < ttl ->
  let c' := set c k v ttl now in
  get c' k now = (Some v, c') /\
  (forall t, t <= now + ttl * 1000 -> get c' k t = (Some v, c')) /\
  (forall t, now + ttl * 1000 < t ->
     get c' k t = (None, base.delete k c') /\
     has c' k t = (false, base.delete k c') /\
     base.delete k c' !! k = None).
Proof.
  intros Httl c'.
  assert (Hk : c' !! k = Some {| value := v; expiry := now + ttl * 1000 |}).
  { unfold c', set. apply lookup_insert_eq. }
  split; [|split].
  - rewrite (get_live _ _ _ _ Hk); [done | cbn; lia].
  - intros t Ht. by rewrite (get_live _ _ _ _ Hk).
  - intros t Ht. split; [|split].
    + by rewrite (get_expired _ _ _ _ Hk).
    + unfold has. rewrite Hk. cbn.
      destruct (Z.gtb_spec t (now + ttl * 1000)); [reflexivity | lia].
    + apply lookup_delete_eq.
Qed.


End Store.

Lemma set_get_expire_witness :
  let c' := CacheManager.set (∅ : gmap string (CacheManager.CacheItem Z))
              "throttle:42" 7 60 1000 in
  CacheManager.get c' "throttle:42" 1000 = (Some 7, c') /\
  (forall t, t <= 1000 + 60 * 1000 -> CacheManager.get c' "throttle:42" t = (Some 7, c')) /\
  (forall t, 1000 + 60 * 1000 < t ->
     CacheManager.get c' "throttle:42" t = (None, base.delete "throttle:42" c') /\
     CacheManager.has c' "throttle:42" t = (false, base.delete "throttle:42" c') /\
     base.delete "throttle:42" c' !! "throttle:42" = None).
Proof.
  apply (set_get_expire (∅ : gmap string (CacheManager.CacheItem Z))
           "throttle:42" 7 60 1000). lia.
Defined.

(** ** The throttle policy *)

Section Throttle.
Import Js Handler WebhookHandler.
Import CacheManager.

(** The throttle counters have their keys to themselves. *)
Lemma throttle_key_private id other :
  "throttle:" +:+ id <> "stats:total_messages" /\
  "throttle:" +:+ id <> "stats:last_activity" /\
  "throttle:" +:+ id <> "stats:errors_24h" /\
  "throttle:" +:+ id <> "stats:user:" +:+ other /\
  "throttle:" +:+ id <> "user:" +:+ other +:+ ":last_seen".
Proof. repeat split; discriminate. Qed.

Lemma throttled_at_unfold chatId id t s :
  toString chatId = Normal id ->
  throttled_at chatId t s =
    let key := "throttle:" +:+ id in
    let got := get (cache s) key t in
    let count := or_zero got.1 in
    if count >=? 10 then
      (true, {| cache := got.2; circuitBreaker := circuitBreaker s;
                env := Env.at_time t (env s) |})
    else
      (false, {| cache := set got.2 key (Number (count + 1)) 60 t;
                 circuitBreaker := circuitBreaker s;
                 env := Env.at_time t (env s) |}).
Proof.
  intros Hid. unfold throttled_at, isThrottled, bind, lift, cache_get, cache_set, ret.
  rewrite Hid. cbn [cache env Env.now Env.at_time circuitBreaker].
  destruct (get (cache s) ("throttle:" +:+ id) t) as [stored c]. cbn [fst snd].
  by destruct (or_zero stored >=? 10).
Qed.

(** The first update of a chat opens its counter. *)
Lemma first_update chatId id t s :
  toString chatId = Normal id ->
  throttle_entry id s = None ->
  (throttled_at chatId t s).1 = false /\
  throttle_entry id (throttled_at chatId t s).2 =
    Some {| value := Number 1; expiry := t + 60000 |}.
Proof.
  intros Hid He. rewrite (throttled_at_unfold _ _ _ _ Hid). cbv zeta.
  unfold throttle_entry in *. rewrite (get_absent _ _ _ He). cbn.
  split; [reflexivity|]. unfold set. by rewrite lookup_insert_eq.
Qed.

(** An update that finds a live counter below 10 is let through, counted,
    and moves the expiry to 60 s after itself. *)
Lemma counted_update chatId id t s n expires :
  toString chatId = Normal id ->
  throttle_entry id s = Some {| value := Number n; expiry := expires |} ->
  t <= expires -> n < 10 ->
  (throttled_at chatId t s).1 = false /\
  throttle_entry id (throttled_at chatId t s).2 =
    Some {| value := Number (n + 1); expiry := t + 60000 |}.
Proof.
  intros Hid He Ht Hn. rewrite (throttled_at_unfold _ _ _ _ Hid). cbv zeta.
  unfold throttle_entry in *. rewrite (get_live _ _ _ _ He) by done. cbn [fst snd or_zero value].
  destruct (Z.geb_spec n 10); [lia|]. cbn [fst snd cache].
  split; [reflexivity|]. unfold set. by rewrite lookup_insert_eq.
Qed.

(** An update that finds a live counter at 10 or more is throttled, and the
    counter and its expiry are left as they were. *)
Lemma full_window chatId id t s n expires :
  toString chatId = Normal id ->
  throttle_entry id s = Some {| value := Number n; expiry := expires |} ->
  t <= expires -> 10 <= n ->
  (throttled_at chatId t s).1 = true /\
  throttle_entry id (throttled_at chatId t s).2 =
    Some {| value := Number n; expiry := expires |}.
Proof.
  intros Hid He Ht Hn. rewrite (throttled_at_unfold _ _ _ _ Hid). cbv zeta.
  unfold throttle_entry in *. rewrite (get_live _ _ _ _ He) by done. cbn [fst snd or_zero value].
  destruct (Z.geb_spec n 10); [|lia]. done.
Qed.

(** An update that comes after the expiry of the counter starts a new
    one. *)
Lemma expired_window chatId id t s item :
  toString chatId = Normal id ->
  throttle_entry id s = Some item ->
  expiry item < t ->
  (throttled_at chatId t s).1 = false /\
  throttle_entry id (throttled_at chatId t s).2 =
    Some {| value := Number 1; expiry := t + 60000 |}.
Proof.
  intros Hid He Ht. rewrite (throttled_at_unfold _ _ _ _ Hid). cbv zeta.
  unfold throttle_entry in *. rewrite (get_expired _ _ _ _ He) by done. cbn.
  split; [reflexivity|]. unfold set. by rewrite lookup_insert_eq.
Qed.

Lemma last_after_head (ts : list Z) : forall t d, List.last (t :: ts) d = List.last ts t.
Proof.
  induction ts as [|z ts IH]; intros t d; [reflexivity|].
  change (List.last (t :: z :: ts) d) with (List.last (z :: ts) d).
  by rewrite !IH.
Qed.

Lemma arrivals_counted chatId id :
  toString chatId = Normal id ->
  forall ts s n prev,
    throttle_entry id s = Some {| value := Number n; expiry := prev + 60000 |} ->
    paced prev ts ->
    n + Z.of_nat (length ts) <= 10 ->
    (arrivals chatId ts s).1 = replicate (length ts) false /\
    throttle_entry id (arrivals chatId ts s).2 =
      Some {| value := Number (n + Z.of_nat (length ts));
              expiry := List.last ts prev + 60000 |}.
Proof.
  intros Hid. induction ts as [|t ts IH]; intros s n prev He Hp Hn.
  - cbn. split; [reflexivity|]. rewrite He. f_equal. f_equal. f_equal. lia.
  - destruct Hp as [Ht Hp]. cbn [length] in Hn.
    destruct (counted_update chatId id t s n (prev + 60000) Hid He Ht) as [Hb He']; [lia|].
    cbn [arrivals]. destruct (throttled_at chatId t s) as [b s1]. cbn [fst snd] in Hb, He'.
    subst b. destruct (IH s1 (n + 1) t He' Hp) as [IH1 IH2]; [lia|].
    destruct (arrivals chatId ts s1) as [bs s2]. cbn [fst snd] in *.
    split; [by rewrite IH1|]. rewrite IH2. f_equal. f_equal.
    + f_equal. cbn [length]. lia.
    + f_equal. symmetry. apply last_after_head.
Qed.

(** The parts of the throttle policy that hold in general.  From an empty
    counter, ten updates, each no later than 60 s after the one before, are
    let through; from then on an update is throttled, the counter left at
    10, as long as it comes no later than 60 s after the tenth update, and
    is let through only once it comes later than that. *)
Lemma ten_pass_then_throttled chatId id s t1 ts :
  toString chatId = Normal id ->
  throttle_entry id s = None ->
  length ts = 9%nat ->
  paced t1 ts ->
  let ten := arrivals chatId (t1 :: ts) s in
  let tenth := List.last ts t1 in
  ten.1 = replicate 10 false /\
  (forall t, t <= tenth + 60000 ->
     (throttled_at chatId t ten.2).1 = true /\
     throttle_entry id (throttled_at chatId t ten.2).2 =
       Some {| value := Number 10; expiry := tenth + 60000 |}) /\
  (forall t, tenth + 60000 < t -> (throttled_at chatId t ten.2).1 = false).
Proof.
  intros Hid He Hlen Hp. cbv zeta. cbn [arrivals].
  destruct (first_update chatId id t1 s Hid He) as [Hb He1].
  destruct (throttled_at chatId t1 s) as [b s1]. cbn [fst snd] in Hb, He1. subst b.
  destruct (arrivals_counted chatId id Hid ts s1 1 t1 He1 Hp) as [H1 H2]; [lia|].
  destruct (arrivals chatId ts s1) as [bs s2]. cbn [fst snd] in *.
  rewrite Hlen in H1, H2. change (1 + Z.of_nat 9) with 10 in H2.
  split; [by rewrite H1|]. split.
  - intros t Ht. by apply (full_window chatId id t s2 10 _ Hid H2).
  - intros t Ht. by apply (expired_window chatId id t s2 _ Hid H2).
Qed.

(** C3 on ten updates of chat 42 spread over 54 s, followed by four more.
    The ten are let through; the 11th, 59 s after the first, is throttled
    and leaves the counter at 10.  An update 61 s after the first, hence
    after the window that the first update opened, is throttled all the
    same, because each counted update moved the expiry to 60 s after
    itself; so is one exactly 60 s after the tenth; only 60.001 s after
    the tenth is an update let through again. *)
Theorem throttle_window_restarts_on_each_update :
  let s0 := Scenario.fresh 0 Scenario.healthy in
  let ten := arrivals (Num 42) Scenario.burst s0 in
  let eleventh := throttled_at (Num 42) 59000 ten.2 in
  let after_window := throttled_at (Num 42) 61000 eleventh.2 in
  let at_expiry := throttled_at (Num 42) 114000 after_window.2 in
  let past_expiry := throttled_at (Num 42) 114001 at_expiry.2 in
  ten.1 = [false; false; false; false; false; false; false; false; false; false] /\
  throttle_entry "42" ten.2 = Some {| value := Number 10; expiry := 114000 |} /\
  eleventh.1 = true /\
  throttle_entry "42" eleventh.2 = Some {| value := Number 10; expiry := 114000 |} /\
  after_window.1 = true /\
  at_expiry.1 = true /\
  past_expiry.1 = false.
Proof. vm_compute. done. Qed.

End Throttle.

(** ** The update dispatcher *)

Section Dispatcher.
Import Js Wire Handler WebhookHandler.
Local Open Scope handler_scope.

(** *** A small program logic for the monad *)

Lemma wp_ret {A} (a : A) Q s : Q (Normal a) s -> wp (ret a) Q s.
Proof. done. Qed.

Lemma wp_lift {A} (c : completion A) Q s : Q c s -> wp (lift c) Q s.
Proof. done. Qed.

Lemma wp_bind {A B} (m : M A) (k : A -> M B) Q s :
  wp m (fun c s1 => match c with
                    | Normal a => wp (k a) Q s1
                    | Abrupt e => Q (Abrupt e) s1
                    end) s ->
  wp (bind m k) Q s.
Proof. unfold wp, bind. by destruct (m s) as [[a|e] s1]. Qed.

Lemma wp_try_catch {A} (body : M A) handler Q s :
  wp body (fun c s1 => match c with
                       | Normal a => Q (Normal a) s1
                       | Abrupt e => wp (handler e) Q s1
                       end) s ->
  wp (try_catch body handler) Q s.
Proof. unfold wp, try_catch. by destruct (body s) as [[a|e] s1]. Qed.

Lemma wp_mono {A} (m : M A) (Q Q' : completion A -> State -> Prop) s :
  (forall c s', Q c s' -> Q' c s') -> wp m Q s -> wp m Q' s.
Proof. unfold wp. auto. Qed.

(** Steps that make no call of the gateway. *)
Lemma wp_log l message Q s :
  (forall s', calls_of s' = calls_of s -> Q (Normal tt) s') -> wp (log l message) Q s.
Proof. intros H. apply H. reflexivity. Qed.

Lemma wp_now Q s : Q (Normal (Env.now (env s))) s -> wp now Q s.
Proof. done. Qed.

Lemma wp_cache_get key Q s :
  (forall v s', calls_of s' = calls_of s -> Q (Normal v) s') -> wp (cache_get key) Q s.
Proof.
  intros H. unfold wp, cache_get.
  destruct (CacheManager.get _ _ _) as [v c]. by apply H.
Qed.

Lemma wp_cache_set key v ttl Q s :
  (forall s', calls_of s' = calls_of s -> Q (Normal tt) s') -> wp (cache_set key v ttl) Q s.
Proof. intros H. by apply H. Qed.

Lemma wp_cache_keys Q s :
  (forall ks s', calls_of s' = calls_of s -> Q (Normal ks) s') -> wp cache_keys Q s.
Proof. intros H. unfold wp, cache_keys. cbn. by apply H. Qed.

(** A call of a public method of the gateway: it returns, and is noted. *)
Lemma wp_api method params Q s :
  (forall r s',
     calls_of s' = calls_of s ++ [(method, params, TelegramAPI.success r)] ->
     Q (Normal r) s') ->
  wp (api (TelegramAPI.method_call method params)) Q s.
Proof.
  intros H. unfold wp, api.
  pose proof (method_call_calls method params (circuitBreaker s) (env s)) as Hc.
  destruct (TelegramAPI.method_call method params (circuitBreaker s) (env s))
    as [[r b] e]. cbn in *. by apply H.
Qed.

Ltac wp_step :=
  lazymatch goal with
  | |- wp (ret _) _ _ => apply wp_ret
  | |- wp (bind _ _) _ _ => apply wp_bind
  | |- wp (try_catch _ _) _ _ => apply wp_try_catch
  | |- wp (lift _) _ _ => apply wp_lift
  | |- wp (field _ _) _ _ => unfold field; apply wp_lift
  | |- wp (log _ _) _ _ => apply wp_log; intros ? ?
  | |- wp now _ _ => apply wp_now
  | |- wp (cache_set _ _ _) _ _ => apply wp_cache_set; intros ? ?
  | |- wp (cache_get _) _ _ => apply wp_cache_get; intros ? ? ?
  | |- wp cache_keys _ _ => apply wp_cache_keys; intros ? ? ?
  | |- wp (api (TelegramAPI.method_call _ _)) _ _ => apply wp_api; intros ? ? ?
  | |- wp (api (TelegramAPI.sendMessage _ _)) _ _ =>
      unfold TelegramAPI.sendMessage; apply wp_api; intros ? ? ?
  | |- wp (api (TelegramAPI.answerCallbackQuery _ _)) _ _ =>
      unfold TelegramAPI.answerCallbackQuery; apply wp_api; intros ? ? ?
  | |- wp (api (TelegramAPI.answerInlineQuery _ _)) _ _ =>
      unfold TelegramAPI.answerInlineQuery; apply wp_api; intros ? ? ?
  end.

(** Symbolic execution: one rule at a time, a case split where the program
    branches, and the postcondition of a finished step reduced. *)
Ltac wp_case :=
  lazymatch goal with
  | |- wp (if ?b then _ else _) _ _ => destruct b eqn:?
  | |- wp (match ?x with _ => _ end) _ _ => destruct x eqn:?
  | |- match ?c with Normal _ => _ | Abrupt _ => _ end => destruct c eqn:?
  end.

Ltac wp_run := repeat (first [wp_step | wp_case | progress cbv beta iota]).

(** Rewrite the calls recorded in the goal back to those of the start. *)
Ltac calls_back :=
  repeat match goal with
         | H : calls_of _ = _ |- _ => rewrite H; clear H
         end.

(** *** Reading properties *)

Lemma prop_spec v name :
  prop v name = if nullish v then Abrupt TypeError else Normal (optprop v name).
Proof. by destruct v. Qed.

Lemma prop_Normal v name x :
  prop v name = Normal x -> nullish v = false /\ x = optprop v name.
Proof. rewrite prop_spec. destruct (nullish v); [done|]. by intros [= <-]. Qed.

Lemma truthy_not_nullish v : truthy v = true -> nullish v = false.
Proof. by destruct v. Qed.

Lemma prop_truthy v name : truthy v = true -> prop v name = Normal (optprop v name).
Proof. intros H. by rewrite prop_spec, (truthy_not_nullish v H). Qed.


(** *** The handlers, one by one *)

Ltac props_known :=
  repeat match goal with
         | H : prop _ _ = Normal _ |- _ => apply prop_Normal in H as [? ->]
         end.

Lemma sendFallbackMessage_sends chat text s :
  wp (sendFallbackMessage chat text)
     (fun c s' =>
        c = Normal tt /\
        exists ok, calls_of s' = calls_of s ++ [("sendMessage", SendMessage chat text, ok)]) s.
Proof.
  unfold sendFallbackMessage. wp_run.
  split; [reflexivity|]. eexists. calls_back. reflexivity.
Qed.

(** *** The shape of [handleWebhook] *)

(** [extractChatId] and [getUpdateType] only read the update. *)
Lemma extractChatId_pure update s :
  extractChatId update s = (chat_of update s, s) /\
  forall s', chat_of update s' = chat_of update s.
Proof.
  unfold chat_of, extractChatId, bind, field, lift, ret.
  split; [|intros s']; repeat case_match; simplify_eq; done.
Qed.

Lemma getUpdateType_classify update s :
  nullish update = false ->
  getUpdateType update s =
    (Normal match classify update with
            | Kind.message => "message"
            | Kind.edited_message => "edited_message"
            | Kind.callback_query => "callback_query"
            | Kind.inline_query => "inline_query"
            | Kind.channel_post => "channel_post"
            | Kind.my_chat_member => "my_chat_member"
            | Kind.other => "unknown"
            end, s).
Proof.
  intros Hu. unfold getUpdateType, classify, bind, field, lift, ret.
  rewrite !prop_spec, Hu. repeat case_match; simplify_eq; done.
Qed.




Lemma getUpdateType_silent update : silent (getUpdateType update).
Proof.
  intros s. change (wp (getUpdateType update) (fun _ s' => calls_of s' = calls_of s) s).
  unfold getUpdateType. wp_run; by calls_back.
Qed.

Lemma recordUpdate_silent update : silent (StatsManager.recordUpdate update).
Proof.
  intros s.
  change (wp (StatsManager.recordUpdate update) (fun _ s' => calls_of s' = calls_of s) s).
  unfold StatsManager.recordUpdate, StatsManager.extractUserId. wp_run; by calls_back.
Qed.


Lemma isThrottled_silent chatId : silent (isThrottled chatId).
Proof.
  intros s. change (wp (isThrottled chatId) (fun _ s' => calls_of s' = calls_of s) s).
  unfold isThrottled. wp_run; by calls_back.
Qed.

Lemma bind_Normal {A B} (m : M A) (k : A -> M B) s b s' :
  bind m k s = (Normal b, s') ->
  exists a s1, m s = (Normal a, s1) /\ k a s1 = (Normal b, s').
Proof.
  unfold bind. destruct (m s) as [[a|e] s1]; [eauto | discriminate].
Qed.

Lemma admission_Normal update s chat flag s1 :
  admission update s = (Normal (chat, flag), s1) ->
  nullish update = false /\
  chat_of update s = Normal chat /\
  calls_of s1 = calls_of s.
Proof.
  unfold admission. intros H.
  apply bind_Normal in H as (x & s2 & H1 & H).
  apply bind_Normal in H as (kind & s3 & H2 & H).
  apply bind_Normal in H as ([] & s4 & H3 & H).
  apply bind_Normal in H as ([] & s5 & H4 & H).
  apply bind_Normal in H as (chat' & s6 & H5 & H).
  apply bind_Normal in H as (flag' & s7 & H6 & H).
  injection H as -> -> ->.
  assert (Hu : nullish update = false).
  { unfold field, lift in H1. rewrite prop_spec in H1. by destruct (nullish update). }
  split; [exact Hu|].
  destruct (extractChatId_pure update s5) as [Hpure Hany].
  rewrite Hpure in H5. injection H5 as H5 <-.
  split; [by rewrite (Hany s), H5|].
  assert (Hs2 : s2 = s) by (unfold field, lift in H1; congruence). subst s2.
  pose proof (getUpdateType_silent update s) as G2. rewrite H2 in G2.
  pose proof (recordUpdate_silent update s4) as G4. rewrite H4 in G4.
  assert (G3 : calls_of s4 = calls_of s3) by (unfold log in H3; by injection H3 as <-).
  assert (G6 : calls_of s1 = calls_of s5).
  { destruct (truthy chat).
    - pose proof (isThrottled_silent chat s5) as G. by rewrite H6 in G.
    - unfold ret in H6. congruence. }
  cbn in *. congruence.
Qed.

(** Past the throttle check, [handleWebhook] is the reply step under the
    [catch] block. *)
Lemma handleWebhook_admitted update s chat s1 :
  admission update s = (Normal (chat, false), s1) ->
  handleWebhook update s = try_catch (respond update chat) (fun _ => recover update) s1.
Proof.
  unfold admission, handleWebhook, respond, recover, try_catch. intros H.
  apply bind_Normal in H as (x & s2 & H1 & H).
  apply bind_Normal in H as (kind & s3 & H2 & H).
  apply bind_Normal in H as ([] & s4 & H3 & H).
  apply bind_Normal in H as ([] & s5 & H4 & H).
  apply bind_Normal in H as (chat' & s6 & H5 & H).
  apply bind_Normal in H as (flag' & s7 & H6 & H).
  injection H as -> -> ->.
  unfold bind at 1. rewrite H1.
  unfold bind at 1. rewrite H2.
  unfold bind at 1. rewrite H3.
  unfold bind at 1. rewrite H4.
  unfold bind at 1. rewrite H5.
  unfold bind at 1. rewrite H6.
  reflexivity.
Qed.

(** Before the throttle check, a failure leads to the [catch] block. *)
Lemma handleWebhook_rejected update s e s1 :
  admission update s = (Abrupt e, s1) ->
  handleWebhook update s = recover update s1.
Proof.
  unfold admission, handleWebhook, try_catch, bind. intros H.
  repeat (case_match; simplify_eq; try done).
Qed.

(** A throttled update is dropped with a warning. *)
Lemma handleWebhook_throttled update s chat s1 :
  admission update s = (Normal (chat, true), s1) ->
  handleWebhook update s = log Env.Warn "User throttled" s1.
Proof.
  unfold admission, handleWebhook, try_catch. intros H.
  apply bind_Normal in H as (x & s2 & H1 & H).
  apply bind_Normal in H as (kind & s3 & H2 & H).
  apply bind_Normal in H as ([] & s4 & H3 & H).
  apply bind_Normal in H as ([] & s5 & H4 & H).
  apply bind_Normal in H as (chat' & s6 & H5 & H).
  apply bind_Normal in H as (flag' & s7 & H6 & H).
  injection H as -> -> ->.
  unfold bind at 1. rewrite H1.
  unfold bind at 1. rewrite H2.
  unfold bind at 1. rewrite H3.
  unfold bind at 1. rewrite H4.
  unfold bind at 1. rewrite H5.
  unfold bind at 1. rewrite H6.
  reflexivity.
Qed.


Lemma wp_extractChatId update Q s :
  Q (chat_of update s) s -> wp (extractChatId update) Q s.
Proof. unfold wp. by destruct (extractChatId_pure update s) as [-> _]. Qed.

Lemma chat_of_any update s s' : chat_of update s' = chat_of update s.
Proof. by destruct (extractChatId_pure update s) as [_ H]. Qed.

(** The [catch] block raises exactly when the chat id cannot be read;
    otherwise it sends the technical-difficulties notice to a chat id that
    is truthy. *)
Lemma recover_spec update s :
  wp (recover update)
     (fun c s' =>
        match chat_of update s with
        | Normal chat =>
            c = Normal tt /\
            if truthy chat then
              exists ok, calls_of s' = calls_of s ++ [sent chat FALLBACK_MESSAGE ok]
            else calls_of s' = calls_of s
        | Abrupt e => c = Abrupt e /\ calls_of s' = calls_of s
        end) s.
Proof.
  unfold recover. wp_step. wp_step. wp_step. apply wp_extractChatId.
  rewrite (chat_of_any update s s').
  destruct (chat_of update s) as [chat|e]; [|done].
  destruct (truthy chat) eqn:Ht.
  - eapply wp_mono; [|apply sendFallbackMessage_sends].
    intros c s2 (-> & ok & Hok). split; [done|]. exists ok. by rewrite Hok, H.
  - by wp_step.
Qed.


(** The three ways the throttle check can end. *)
Lemma admission_cases update s :
  (exists chat s1, admission update s = (Normal (chat, false), s1)) \/
  (exists chat s1, admission update s = (Normal (chat, true), s1)) \/
  (exists e s1, admission update s = (Abrupt e, s1)).
Proof.
  destruct (admission update s) as [[[chat []]|e] s1]; eauto 6.
Qed.

Lemma try_catch_run {A} (body : M A) handler s :
  try_catch body handler s =
    match body s with
    | (Normal a, s') => (Normal a, s')
    | (Abrupt e, s') => handler e s'
    end.
Proof. reflexivity. Qed.

(** [handleWebhook] raises exactly when [extractChatId] does. *)
Lemma handleWebhook_raises_iff update s :
  (exists e, (handleWebhook update s).1 = Abrupt e) <->
  (exists e, chat_of update s = Abrupt e).
Proof.
  destruct (admission_cases update s)
    as [(chat & s1 & Ha)|[(chat & s1 & Ha)|(e & s1 & Ha)]].
  - destruct (admission_Normal _ _ _ _ _ Ha) as (_ & Hchat & _).
    rewrite (handleWebhook_admitted _ _ _ _ Ha), try_catch_run, Hchat.
    destruct (respond update chat s1) as [[[]|e] s2].
    + split; intros [e H]; discriminate H.
    + pose proof (recover_spec update s2) as Hr. unfold wp in Hr.
      rewrite (chat_of_any update s s2), Hchat in Hr. destruct Hr as [-> _].
      split; intros [e' H]; discriminate H.
  - destruct (admission_Normal _ _ _ _ _ Ha) as (_ & Hchat & _).
    rewrite (handleWebhook_throttled _ _ _ _ Ha), Hchat.
    split; intros [e H]; discriminate H.
  - rewrite (handleWebhook_rejected _ _ _ _ Ha).
    pose proof (recover_spec update s1) as Hr. unfold wp in Hr.
    rewrite (chat_of_any update s s1) in Hr.
    destruct (chat_of update s) as [chat|e']; destruct Hr as [-> _].
    + split; intros [e'' H]; discriminate H.
    + split; intros _; eauto.
Qed.

(** C1 on a message that lacks its [chat] field.  Reading the chat id
    throws inside the [try] block and then again inside the [catch] block,
    where nothing catches it: [handleWebhook] raises, and no call of the
    gateway was made. *)
Theorem handleWebhook_raises_without_chat :
  let out := handleWebhook Scenario.message_without_chat
               (Scenario.fresh 0 Scenario.healthy) in
  chat_of Scenario.message_without_chat (Scenario.fresh 0 Scenario.healthy)
    = Abrupt TypeError /\
  out.1 = Abrupt TypeError /\
  calls_of out.2 = [] /\
  Env.logs (env out.2) =
    [(Env.Info, "Received webhook update"); (Env.Error, "Webhook handling failed")].
Proof. vm_compute. done. Qed.

(** *** What each handler sends, exactly *)
















(** The other updates that are handled in silence, on a healthy network: a
    channel post, the removal of the bot from a chat, and a message without
    a chat id whose handler throws. *)
Lemma updates_handled_in_silence :
  let s := Scenario.fresh 0 Scenario.healthy in
  calls_of (handleWebhook Scenario.channel_news s).2 = [] /\
  calls_of (handleWebhook Scenario.bot_removed s).2 = [] /\
  calls_of (handleWebhook Scenario.numeric_text s).2 = [] /\
  (handleWebhook Scenario.numeric_text s).1 = Normal tt.
Proof. vm_compute. done. Qed.

(** Updates that are answered though they are none of a message, an edited
    message or a callback query with a chat: the bot added to a chat, an
    inline query, and a callback query without its message. *)
Lemma updates_answered_without_a_message :
  let s := Scenario.fresh 0 Scenario.healthy in
  calls_of (handleWebhook Scenario.bot_added s).2 =
    [sent (Num 42)
       (Plain "Thanks for adding me to this chat! Type /help to see what I can do.") true] /\
  calls_of (handleWebhook Scenario.inline_search s).2 =
    [("answerInlineQuery",
      AnswerInlineQuery (Str "q1") "You searched for: cats", true)] /\
  calls_of (handleWebhook Scenario.bare_click s).2 =
    [("answerCallbackQuery",
      AnswerCallbackQuery (Str "cb2") (Some (Plain "You clicked: Y")) false, true)].
Proof. vm_compute. done. Qed.




End Dispatcher.

(** * Further properties of the code *)

(** ** The TTL store: overwriting, deleting, sweeping, listing *)

Section StoreMore.
Import CacheManager.
Context {V : Type}.
Implicit Types (c : gmap string (CacheItem V)) (k : string) (v : V).

(** X1.  A second [set] on a key replaces the first, value and expiry
    alike, and a [set] on one key changes neither what [get] and [has]
    return for another key nor the entry stored under it. *)
Theorem set_overwrites_one_key c k k' v1 v2 ttl1 ttl2 t1 t2 t :
  k <> k' ->
  set (set c k v1 ttl1 t1) k v2 ttl2 t2 = set c k v2 ttl2 t2 /\
  set c k v2 ttl2 t2 !! k' = c !! k' /\
  (get (set c k v2 ttl2 t2) k' t).1 = (get c k' t).1 /\
  (has (set c k v2 ttl2 t2) k' t).1 = (has c k' t).1.
Proof.
  intros Hne. unfold set. split; [apply insert_insert_eq|].
  assert (Hk : forall item, <[k:=item]> c !! k' = c !! k')
    by (intros; by apply lookup_insert_ne).
  split; [apply Hk|]. unfold get, has. rewrite Hk.
  destruct (c !! k') as [item|]; [|done].
  by destruct (t >? expiry item).
Qed.

(** X2.  [delete(key)] answers [true] exactly when an entry was stored
    under the key, expired or not; afterwards the key reads as absent at
    any instant, and every other key is left as it was. *)
Theorem delete_removes_one_key c k t :
  ((delete c k).1 = true <-> is_Some (c !! k)) /\
  get (delete c k).2 k t = (None, (delete c k).2) /\
  has (delete c k).2 k t = (false, (delete c k).2) /\
  (forall k', k <> k' -> (delete c k).2 !! k' = c !! k').
Proof.
  unfold delete. cbn [fst snd]. split; [apply bool_decide_eq_true|].
  unfold get, has. rewrite lookup_delete_eq.
  repeat split. intros k' Hne. by apply lookup_delete_ne.
Qed.

Lemma cleanup_lookup c now k :
  cleanup c now !! k =
    match c !! k with
    | Some item => if now >? expiry item then None else Some item
    | None => None
    end.
Proof.
  unfold cleanup. destruct (c !! k) as [item|] eqn:Hk.
  - destruct (Z.gtb_spec now (expiry item)).
    + apply map_lookup_filter_None. right. intros x Hx. cbn.
      assert (x = item) as -> by congruence. lia.
    + apply map_lookup_filter_Some. split; [done|]. cbn. lia.
  - apply map_lookup_filter_None. by left.
Qed.

(** X3.  The sweep [cleanup()] run at [now] removes exactly the entries
    with [now > expiry], and no read made at [now] or later can tell whether
    it ran: [get] and [has] return the same with and without it. *)
Theorem cleanup_is_invisible c now k t :
  now <= t ->
  cleanup c now !! k =
    match c !! k with
    | Some item => if now >? expiry item then None else Some item
    | None => None
    end /\
  (get (cleanup c now) k t).1 = (get c k t).1 /\
  (has (cleanup c now) k t).1 = (has c k t).1.
Proof.
  intros Ht. split; [apply cleanup_lookup|].
  unfold get, has. rewrite cleanup_lookup.
  destruct (c !! k) as [item|]; [|done].
  destruct (Z.gtb_spec now (expiry item)); [|by destruct (t >? expiry item)].
  destruct (Z.gtb_spec t (expiry item)); [done | lia].
Qed.

(** X4.  [keys()] lists, each once, exactly the keys whose entry has not
    expired at the instant of the call, [size()] is the number of those
    keys, and both leave the cache swept. *)
Theorem keys_are_the_live_keys c now :
  (forall k, k ∈ (keys c now).1 <->
             exists item, c !! k = Some item /\ expiry item >= now) /\
  NoDup (keys c now).1 /\
  (size c now).1 = length (keys c now).1 /\
  (keys c now).2 = cleanup c now /\
  (size c now).2 = cleanup c now.
Proof.
  unfold keys, size. cbn [fst snd]. split; [|split; [|split]].
  - intros k. rewrite list_elem_of_fmap. split.
    + intros ([k0 item] & -> & Hin). apply elem_of_map_to_list in Hin.
      rewrite cleanup_lookup in Hin. cbn.
      destruct (c !! k0) as [item0|]; [|done].
      destruct (Z.gtb_spec now (expiry item0)); [done|].
      exists item0. split; [done | lia].
    + intros (item & Hk & He). exists (k, item). split; [done|].
      apply elem_of_map_to_list. rewrite cleanup_lookup, Hk.
      destruct (Z.gtb_spec now (expiry item)); [lia | done].
  - apply NoDup_fst_map_to_list.
  - by rewrite length_fmap, length_map_to_list.
  - done.
Qed.

(** X5.  Expiry is final: a key that [get] reports absent at one instant
    is reported absent at every later instant, whether or not the first read
    took place; and a read of one key changes nothing for another key. *)
Theorem absent_stays_absent c k t t' :
  (get c k t).1 = None ->
  t <= t' ->
  (get c k t').1 = None /\
  (get (get c k t).2 k t').1 = None /\
  (has (get c k t).2 k t').1 = false /\
  (forall k', k <> k' -> (get (get c k t).2 k' t').1 = (get c k' t').1).
Proof.
  intros Hnone Ht.
  assert (Hother : forall k', k <> k' -> (get c k t).2 !! k' = c !! k').
  { intros k' Hne. unfold get. destruct (c !! k) as [item|]; [|done].
    destruct (t >? expiry item); [|done]. by apply lookup_delete_ne. }
  assert (Hk : (get c k t).2 !! k = None \/
               exists item, (get c k t).2 !! k = Some item /\ c !! k = Some item /\
                            expiry item < t).
  { revert Hnone. unfold get. destruct (c !! k) as [item|] eqn:Hk; [|by left].
    destruct (Z.gtb_spec t (expiry item)); [|done].
    intros _. left. apply lookup_delete_eq. }
  assert (Hc : c !! k = None \/ exists item, c !! k = Some item /\ expiry item < t).
  { revert Hnone. unfold get. destruct (c !! k) as [item|]; [|by left].
    destruct (Z.gtb_spec t (expiry item)); [|done]. right. exists item. split; [done|lia]. }
  split; [|split; [|split]].
  - destruct Hc as [Hc|(item & Hc & He)]; unfold get; rewrite Hc; [done|].
    destruct (Z.gtb_spec t' (expiry item)); [done | lia].
  - destruct Hk as [Hk|(item & Hk & _ & He)]; unfold get at 1; rewrite Hk; [done|].
    destruct (Z.gtb_spec t' (expiry item)); [done | lia].
  - destruct Hk as [Hk|(item & Hk & _ & He)]; unfold has; rewrite Hk; [done|].
    destruct (Z.gtb_spec t' (expiry item)); [done | lia].
  - intros k' Hne. unfold get at 1 3. rewrite (Hother k' Hne).
    destruct (c !! k') as [item|]; [|done]. by destruct (t' >? expiry item).
Qed.

(** X6.  [has(key)] is [true] exactly when [get(key)] returns an entry, and
    the two reads leave the same cache behind. *)
Theorem has_mirrors_get c k t :
  ((has c k t).1 = true <-> exists v, (get c k t).1 = Some v) /\
  (has c k t).2 = (get c k t).2.
Proof.
  unfold has, get. destruct (c !! k) as [item|]; [|split; [|done]].
  - destruct (t >? expiry item); cbn; (split; [|done]).
    + split; [done | by intros [v ?]].
    + split; [eauto | done].
  - cbn. split; [done | by intros [v ?]].
Qed.

End StoreMore.

Section StoreExamples.
Import CacheManager.

Lemma set_overwrites_one_key_witness :
  let c := set (∅ : gmap string (CacheItem Z)) "b" 5 60 0 in
  set (set c "a" 1 60 0) "a" 2 10 500 = set c "a" 2 10 500 /\
  set c "a" 2 10 500 !! "b" = c !! "b" /\
  (get (set c "a" 2 10 500) "b" 900).1 = (get c "b" 900).1 /\
  (has (set c "a" 2 10 500) "b" 900).1 = (has c "b" 900).1.
Proof.
  apply (set_overwrites_one_key
           (set (∅ : gmap string (CacheItem Z)) "b" 5 60 0) "a" "b" 1 2 60 10 0 500 900).
  discriminate.
Defined.

Lemma cleanup_is_invisible_witness :
  let c := set (set (∅ : gmap string (CacheItem Z)) "old" 1 1 0) "new" 2 60 0 in
  cleanup c 5000 !! "old" =
    match c !! "old" with
    | Some item => if 5000 >? expiry item then None else Some item
    | None => None
    end /\
  (get (cleanup c 5000) "old" 6000).1 = (get c "old" 6000).1 /\
  (has (cleanup c 5000) "old" 6000).1 = (has c "old" 6000).1.
Proof.
  apply (cleanup_is_invisible
           (set (set (∅ : gmap string (CacheItem Z)) "old" 1 1 0) "new" 2 60 0)
           5000 "old" 6000).
  lia.
Defined.

Lemma absent_stays_absent_witness :
  let c := set (∅ : gmap string (CacheItem Z)) "k" 1 1 0 in
  (get c "k" 3000).1 = None /\
  (get (get c "k" 2000).2 "k" 3000).1 = None /\
  (has (get c "k" 2000).2 "k" 3000).1 = false /\
  (forall k', "k" <> k' -> (get (get c "k" 2000).2 k' 3000).1 = (get c k' 3000).1).
Proof.
  apply (absent_stays_absent (set (∅ : gmap string (CacheItem Z)) "k" 1 1 0)
           "k" 2000 3000); [reflexivity | lia].
Defined.

End StoreExamples.

(** ** The gateway: parsing the delay, counting attempts and failures *)

Section GatewayMore.
Import Wire TelegramAPI.

Lemma append_cons (x : Ascii.ascii) (a b : string) :
  String x a +:+ b = String x (a +:+ b).
Proof. reflexivity. Qed.

Lemma append_assoc (a b c : string) : (a +:+ b) +:+ c = a +:+ (b +:+ c).
Proof. induction a as [|x a IH]; [done|]. by rewrite !append_cons, IH. Qed.

Lemma append_empty (a : string) : a +:+ "" = a.
Proof. induction a as [|x a IH]; [done|]. by rewrite append_cons, IH. Qed.

Lemma length_append_one (a : string) (x : Ascii.ascii) :
  String.length (a +:+ String x "") = S (String.length a).
Proof. induction a as [|y a IH]; [done|]. rewrite append_cons. cbn. by rewrite IH. Qed.

Lemma parseInt_from_app s1 : forall acc s2,
  parseInt_from acc (s1 +:+ s2) = parseInt_from (parseInt_from acc s1) s2.
Proof.
  induction s1 as [|c s1 IH]; intros acc s2; [done|].
  rewrite append_cons. cbn [parseInt_from]. apply IH.
Qed.

Lemma digits_app s1 : forall s2,
  digits s1 = s1 -> digits (s1 +:+ s2) = s1 +:+ digits s2.
Proof.
  induction s1 as [|c s1 IH]; intros s2 H; [done|].
  rewrite !append_cons. cbn [digits] in *. destruct (is_digit c); [|discriminate H].
  injection H as H. rewrite IH by done. reflexivity.
Qed.

Lemma parseInt_from_nonneg s : forall acc,
  0 <= acc -> digits s = s -> 0 <= parseInt_from acc s.
Proof.
  induction s as [|c s IH]; intros acc Hacc H; [done|].
  cbn in *. destruct (is_digit c) eqn:Hc; [|discriminate H].
  injection H as H. apply IH; [|done].
  unfold is_digit in Hc. apply andb_true_iff in Hc as [H1 _].
  apply Nat.leb_le in H1. lia.
Qed.

Lemma digits_idempotent s : digits (digits s) = digits s.
Proof.
  induction s as [|c s IH]; [done|]. cbn. destruct (is_digit c) eqn:Hc; [|done].
  cbn. by rewrite Hc, IH.
Qed.

Lemma match_retry_after_digits description d :
  match_retry_after description = Some d -> digits d = d.
Proof.
  induction description as [|c rest IH]; cbn [match_retry_after].
  - cbn. discriminate.
  - destruct (after_prefix_ci "retry after " (String c rest)) as [r|].
    + destruct (String.eqb (digits r) ""); [exact IH|].
      intros [= <-]. apply digits_idempotent.
    + exact IH.
Qed.

(** The decimal rendering of a natural number: digits only, and read back
    by [parseInt] as the number. *)
Lemma pretty_N_go_digits (x : N) :
  exists D, (forall s, pretty_N_go x s = D +:+ s) /\ digits D = D /\
            forall acc, parseInt_from acc D =
                        acc * 10 ^ Z.of_nat (String.length D) + Z.of_N x.
Proof.
  induction (N.lt_wf_0 x) as [x _ IH].
  destruct (decide (x = 0)%N) as [->|Hx].
  - exists "". split; [intros s; apply pretty_N_go_0|]. split; [done|].
    intros acc. cbn. lia.
  - destruct (IH (x `div` 10)%N) as (D & Hgo & Hd & Hval).
    { apply N.div_lt; lia. }
    exists (D +:+ String (pretty_N_char (x `mod` 10)) "").
    assert (Hlt : (x `mod` 10 < 10)%N) by (apply N.mod_lt; lia).
    assert (Hchar : is_digit (pretty_N_char (x `mod` 10)) = true /\
                    Z.of_nat (Ascii.nat_of_ascii (pretty_N_char (x `mod` 10))) - 48 =
                    Z.of_N (x `mod` 10)).
    { destruct (x `mod` 10)%N as [|q] eqn:Hq; [done|].
      do 9 (destruct q as [q|q|]; try done; try lia). }
    destruct Hchar as [Hdig Hcv].
    split; [|split].
    + intros s. rewrite pretty_N_go_step by lia. rewrite Hgo.
      by rewrite append_assoc.
    + rewrite digits_app by done. cbn. by rewrite Hdig.
    + intros acc. rewrite parseInt_from_app, Hval. cbn [parseInt_from]. rewrite Hcv.
      rewrite length_append_one, Nat2Z.inj_succ, Z.pow_succ_r by lia.
      rewrite (N.div_mod x 10) at 3 by lia. lia.
Qed.

Lemma pretty_N_digits (n : N) :
  digits (pretty n) = pretty n /\ pretty n <> "" /\ parseInt (pretty n) = Z.of_N n.
Proof.
  unfold pretty, pretty_N. destruct (decide (n = 0)%N) as [->|Hn]; [done|].
  destruct (pretty_N_go_digits n) as (D & Hgo & Hd & Hval).
  rewrite Hgo.
  rewrite append_empty. split; [done|]. split.
  - intros ->. specialize (Hval 0). cbn in Hval. lia.
  - unfold parseInt. rewrite Hval. lia.
Qed.

Lemma after_prefix_ci_app q : forall p s,
  Js.toLowerCase p = Js.toLowerCase q -> after_prefix_ci q (p +:+ s) = Some s.
Proof.
  induction q as [|a q IH]; intros [|b p] s H; try done.
  cbn [Js.toLowerCase] in H. injection H as Hc H.
  rewrite append_cons. cbn [after_prefix_ci].
  rewrite Hc, Ascii.eqb_refl. by apply IH.
Qed.

(** X7.  The delay read from a rate-limit description is never negative;
    it is 1 when the description holds no [retry after <digits>]; and for
    a description in Telegram's format, whatever the letter case of the
    phrase, it is the number that was advertised, as long as that number is
    below 2^53, the range in which [Number.parseInt] is exact. *)
Theorem extractRetryAfter_reads_the_delay description :
  0 <= extractRetryAfter description /\
  (match_retry_after description = None -> extractRetryAfter description = 1) /\
  (forall (n : N) (phrase rest : string),
     (n < 2 ^ 53)%N ->
     Js.toLowerCase phrase = "retry after " ->
     digits rest = "" ->
     extractRetryAfter ("Too Many Requests: " +:+ phrase +:+ pretty n +:+ rest) = Z.of_N n).
Proof.
  split; [|split].
  - unfold extractRetryAfter.
    destruct (match_retry_after description) as [d|] eqn:Hd; [|done].
    apply parseInt_from_nonneg; [done|]. by apply match_retry_after_digits in Hd.
  - unfold extractRetryAfter. by intros ->.
  - intros n phrase rest _ Hphrase Hrest.
    destruct (pretty_N_digits n) as (Hd & Hne & Hval).
    assert (Hhere : match_retry_after (phrase +:+ pretty n +:+ rest) = Some (pretty n)).
    { assert (Hafter : after_prefix_ci "retry after " (phrase +:+ pretty n +:+ rest)
                       = Some (pretty n +:+ rest))
        by (by apply after_prefix_ci_app).
      assert (Hdig : digits (pretty n +:+ rest) = pretty n).
      { rewrite digits_app by done. rewrite Hrest. apply append_empty. }
      destruct (phrase +:+ pretty n +:+ rest) as [|c tail] eqn:Hs.
      - cbn in Hafter. discriminate Hafter.
      - cbn [match_retry_after]. rewrite Hafter, Hdig.
        destruct (String.eqb_spec (pretty n) ""); [done|done]. }
    assert (Hskip : forall tail,
              match_retry_after ("Too Many Requests: " +:+ tail) = match_retry_after tail)
      by reflexivity.
    unfold extractRetryAfter. rewrite Hskip, Hhere. exact Hval.
Qed.

Lemma extractRetryAfter_reads_the_delay_witness :
  extractRetryAfter
    ("Too Many Requests: " +:+ "Retry After " +:+ pretty 35%N +:+ " seconds") = 35.
Proof.
  destruct (extractRetryAfter_reads_the_delay "") as (_ & _ & Hread).
  apply (Hread 35%N "Retry After " " seconds"); [lia | reflexivity | reflexivity].
Defined.

Lemma attempts_cursor remaining : forall attempt lastError method params b e,
  (Env.cursor e <= Env.cursor (attempts remaining attempt lastError method params b e).2
   <= Env.cursor e + remaining)%nat.
Proof.
  induction remaining as [|n IH]; intros attempt lastError method params b e.
  - cbn [attempts]. unfold record_failure. destruct (_ >=? _); cbn; lia.
  - cbn [attempts]. unfold Env.fetch.
    destruct (reply _) as [result|code description|name code message]; cbv zeta.
    + cbn. lia.
    + case_bool_decide.
      * destruct (attempt <? maxRetries); [|cbn; lia].
        match goal with |- context [attempts n ?a ?l _ _ _ ?e'] =>
          specialize (IH a l method params b e') end. cbn in IH. lia.
      * match goal with |- context [attempts n ?a ?l _ _ _ ?e'] =>
          specialize (IH a l method params b e') end.
        destruct (attempt <? maxRetries); cbn in IH; lia.
    + match goal with |- context [attempts n ?a ?l _ _ _ ?e'] =>
        specialize (IH a l method params b e') end.
      destruct (attempt <? maxRetries); cbn in IH; lia.
Qed.

Lemma attempts_cursor_first remaining attempt lastError method params b e :
  (Env.cursor e + 1 <=
   Env.cursor (attempts (S remaining) attempt lastError method params b e).2)%nat.
Proof.
  cbn [attempts]. unfold Env.fetch.
  destruct (reply _) as [result|code description|name code message]; cbv zeta.
  - cbn. lia.
  - case_bool_decide.
    + destruct (attempt <? maxRetries); [|cbn; lia].
      match goal with |- context [attempts remaining ?a ?l _ _ _ ?e'] =>
        pose proof (attempts_cursor remaining a l method params b e') as H0 end.
      cbn in H0. lia.
    + match goal with |- context [attempts remaining ?a ?l _ _ _ ?e'] =>
        pose proof (attempts_cursor remaining a l method params b e') as H0 end.
      destruct (attempt <? maxRetries); cbn in H0; lia.
  - match goal with |- context [attempts remaining ?a ?l _ _ _ ?e'] =>
      pose proof (attempts_cursor remaining a l method params b e') as H0 end.
    destruct (attempt <? maxRetries); cbn in H0; lia.
Qed.

(** X8.  Whatever the network answers, one call of [makeRequest] issues at
    most three requests; it issues none when the breaker refuses the call,
    and at least one when the breaker admits it. *)
Theorem makeRequest_attempt_budget method params b e :
  let out := makeRequest method params b e in
  (Env.cursor e <= Env.cursor out.2 <= Env.cursor e + 3)%nat /\
  (admits b (Env.now e) = false -> Env.cursor out.2 = Env.cursor e /\ Env.io out.2 = Env.io e) /\
  (admits b (Env.now e) = true -> (Env.cursor e + 1 <= Env.cursor out.2)%nat).
Proof.
  cbv zeta. unfold admits.
  assert (Hfirst : forall b0, (Env.cursor e + 1 <=
            Env.cursor (attempts 3 1 "" method params b0 e).2)%nat)
    by (intros b0; apply attempts_cursor_first).
  destruct (makeRequest_cases method params b e) as [(Ho & Hlt & ->)|[(Ho & Hge & ->)|(Ho & ->)]].
  - rewrite Ho. cbn [is_open negb orb fst snd].
    destruct (Z.leb_spec 30000 (Env.now e - lastFailure b)); [lia|].
    split; [lia|]. split; [done | discriminate].
  - rewrite Ho. cbn [is_open negb orb].
    destruct (Z.leb_spec 30000 (Env.now e - lastFailure b)); [|lia].
    split; [apply attempts_cursor|]. split; [discriminate | intros _; apply Hfirst].
  - assert (is_open (state b) = false) as -> by (by destruct (state b)).
    cbn [negb orb].
    split; [apply attempts_cursor|]. split; [discriminate | intros _; apply Hfirst].
Qed.

Lemma admits_cases method params b e :
  admits b (Env.now e) = true ->
  exists b0, makeRequest method params b e = attempts 3 1 "" method params b0 e /\
             failures b0 = failures b /\ lastFailure b0 = lastFailure b /\
             ((state b <> open /\ state b0 = state b) \/
              (state b = open /\ state b0 = half_open)).
Proof.
  unfold admits. intros Ha.
  destruct (makeRequest_cases method params b e) as [(Ho & Hlt & _)|[(Ho & Hge & ->)|(Ho & ->)]].
  - rewrite Ho in Ha. cbn in Ha. apply Z.leb_le in Ha. lia.
  - eexists. split; [reflexivity|]. cbn. auto.
  - exists b. repeat split. by left.
Qed.

Lemma upcoming_after e e' k :
  Env.net e' = Env.net e -> Env.cursor e' = S (Env.cursor e) ->
  upcoming e' k = upcoming e (S k).
Proof. intros Hn Hc. unfold upcoming. rewrite Hn, Hc. f_equal. f_equal. lia. Qed.

Lemma attempts_ok remaining attempt lastError method params b e result :
  upcoming e 0 = Ok result ->
  let out := attempts (S remaining) attempt lastError method params b e in
  out.1.1 = {| success := true; data := Some result; error := None; retryAfter := None |} /\
  out.1.2 = {| failures := 0; lastFailure := lastFailure b; state := closed |} /\
  Env.cursor out.2 = S (Env.cursor e) /\
  Env.io out.2 = Env.io e ++ [Env.Fetch method params] /\
  Env.now out.2 = Env.now e + latency (Env.net e (Env.cursor e)).
Proof.
  unfold upcoming. replace (Env.cursor e + 0)%nat with (Env.cursor e) by lia.
  intros Hok. cbn [attempts]. unfold Env.fetch. rewrite Hok. done.
Qed.

(** X9.  A call that the breaker admits and whose first attempt is
    answered with [ok] issues that one request, takes no sleep, returns the
    payload with [success = true], and leaves the breaker closed with no
    failure counted and [lastFailure] as it was. *)
Theorem first_attempt_succeeds method params b e result :
  admits b (Env.now e) = true ->
  upcoming e 0 = Ok result ->
  let out := makeRequest method params b e in
  out.1.1 = {| success := true; data := Some result; error := None; retryAfter := None |} /\
  out.1.2 = {| failures := 0; lastFailure := lastFailure b; state := closed |} /\
  Env.io out.2 = Env.io e ++ [Env.Fetch method params] /\
  Env.cursor out.2 = S (Env.cursor e) /\
  Env.now out.2 = Env.now e + latency (Env.net e (Env.cursor e)).
Proof.
  intros Ha Hok. cbv zeta.
  destruct (admits_cases method params b e Ha) as (b0 & -> & _ & Hl & _).
  destruct (attempts_ok 2 1 "" method params b0 e result Hok) as (-> & -> & Hc & Hio & Hnow).
  by rewrite Hl.
Qed.

Lemma first_attempt_succeeds_witness :
  let e := Scenario.world 0 Scenario.healthy in
  let out := makeRequest "getMe" NoParams initial e in
  out.1.1 = {| success := true; data := Some (Js.Bool true); error := None;
               retryAfter := None |} /\
  out.1.2 = {| failures := 0; lastFailure := lastFailure initial; state := closed |} /\
  Env.io out.2 = Env.io e ++ [Env.Fetch "getMe" NoParams] /\
  Env.cursor out.2 = S (Env.cursor e) /\
  Env.now out.2 = Env.now e + latency (Env.net e (Env.cursor e)).
Proof.
  apply (first_attempt_succeeds "getMe" NoParams initial
           (Scenario.world 0 Scenario.healthy) (Js.Bool true)); reflexivity.
Defined.

(** X10.  A call that fails on its first attempt, or on its first two, and
    is then answered with [ok] returns the payload with [success = true]
    and leaves the breaker closed with [failures = 0]: failed attempts
    inside a call that succeeds are not counted. *)
Theorem retry_recovers method params b e result :
  admits b (Env.now e) = true ->
  failed (upcoming e 0) = true ->
  upcoming e 1 = Ok result \/
    (failed (upcoming e 1) = true /\ upcoming e 2 = Ok result) ->
  let out := makeRequest method params b e in
  out.1.1 = {| success := true; data := Some result; error := None; retryAfter := None |} /\
  out.1.2 = {| failures := 0; lastFailure := lastFailure b; state := closed |} /\
  (Env.cursor e + 2 <= Env.cursor out.2 <= Env.cursor e + 3)%nat.
Proof.
  intros Ha H0 Hrest. cbv zeta.
  destruct (admits_cases method params b e Ha) as (b0 & -> & _ & Hl & _).
  destruct (attempts_retry 2 1 "" method params b0 e) as
    (l1 & e1 & d1 & -> & Hc1 & Hn1 & _ & _ & _); [done..|].
  pose proof (upcoming_after e e1) as Hup. specialize (Hup 0%nat Hn1 Hc1) as Hup0.
  destruct Hrest as [Hok|[H1 Hok]].
  - destruct (attempts_ok 1 (1 + 1) l1 method params b0 e1 result) as (-> & -> & Hc & _);
      [by rewrite Hup0|].
    rewrite Hl, Hc, Hc1. repeat split; lia.
  - destruct (attempts_retry 1 (1 + 1) l1 method params b0 e1) as
      (l2 & e2 & d2 & -> & Hc2 & Hn2 & _ & _ & _); [done | by rewrite Hup0 |].
    destruct (attempts_ok 0 (1 + 1 + 1) l2 method params b0 e2 result) as (-> & -> & Hc & _).
    { rewrite (upcoming_after e1 e2 0 Hn2 Hc2), (upcoming_after e e1 1 Hn1 Hc1). exact Hok. }
    rewrite Hl, Hc, Hc2, Hc1. repeat split; lia.
Qed.

Lemma retry_recovers_witness :
  let e := Scenario.world 0
             (Scenario.answering [Scenario.server_error; Scenario.too_many_requests]
                Scenario.accepted) in
  let out := makeRequest "getMe" NoParams initial e in
  out.1.1 = {| success := true; data := Some (Js.Bool true); error := None;
               retryAfter := None |} /\
  out.1.2 = {| failures := 0; lastFailure := lastFailure initial; state := closed |} /\
  (Env.cursor e + 2 <= Env.cursor out.2 <= Env.cursor e + 3)%nat.
Proof.
  apply (retry_recovers "getMe" NoParams initial
           (Scenario.world 0
              (Scenario.answering [Scenario.server_error; Scenario.too_many_requests]
                 Scenario.accepted)) (Js.Bool true));
    [reflexivity | reflexivity | right; split; reflexivity].
Defined.

(** The loop that meets three failures, the last not a rate-limit reply,
    reaches the statements after it with the text of the last failure. *)
Lemma attempts_exhausted method params b e :
  Series.exhausting e = true ->
  exists e3,
    attempts 3 1 "" method params b e =
      record_failure (Series.error_text (upcoming e 2)) b e3 /\
    Env.cursor e3 = (Env.cursor e + 3)%nat /\ Env.net e3 = Env.net e.
Proof.
  unfold Series.exhausting. intros H.
  apply andb_true_iff in H as [H Hr]. apply andb_true_iff in H as [H H3].
  apply andb_true_iff in H as [H1 H2]. apply negb_true_iff in Hr.
  destruct (attempts_retry 2 1 "" method params b e) as
    (l1 & e1 & d1 & -> & Hc1 & Hn1 & _ & _ & _); [done..|].
  destruct (attempts_retry 1 (1 + 1) l1 method params b e1) as
    (l2 & e2 & d2 & -> & Hc2 & Hn2 & _ & _ & _);
    [done | by rewrite (upcoming_after e e1 0 Hn1 Hc1) |].
  assert (Hup2 : upcoming e2 0 = upcoming e 2)
    by (by rewrite (upcoming_after e1 e2 0 Hn2 Hc2), (upcoming_after e e1 1 Hn1 Hc1)).
  rewrite <- Hup2 in *. clear Hup2. revert H3 Hr. unfold upcoming.
  replace (Env.cursor e2 + 0)%nat with (Env.cursor e2) by lia.
  cbn [attempts]. unfold Env.fetch.
  replace (1 + 1 + 1 <? maxRetries) with false by reflexivity.
  destruct (reply _) as [?|code description|name code message]; intros H3 Hr;
    [discriminate H3| |]; cbv zeta.
  - cbn [rate_limited] in Hr. rewrite Hr. eexists. split; [reflexivity|].
    cbn. rewrite Hc2, Hc1, Hn2, Hn1. split; [lia | done].
  - eexists. split; [reflexivity|].
    cbn. rewrite Hc2, Hc1, Hn2, Hn1. split; [lia | done].
Qed.

(** X11.  A call that the breaker admits and that fails on each of its
    three attempts, the last one not with a rate-limit reply, counts one
    failure and stamps [lastFailure] with the instant the call returns; the
    breaker is [open] from the fifth failure on and otherwise stays as the
    call found it ([half_open] if the call was the probe). *)
Theorem exhausted_call_is_counted method params b e :
  admits b (Env.now e) = true ->
  Series.exhausting e = true ->
  let out := makeRequest method params b e in
  success out.1.1 = false /\
  retryAfter out.1.1 = None /\
  failures out.1.2 = failures b + 1 /\
  lastFailure out.1.2 = Env.now out.2 /\
  state out.1.2 =
    (if failures b + 1 >=? 5 then open
     else if is_open (state b) then half_open else state b).
Proof.
  intros Ha He. cbv zeta.
  destruct (admits_cases method params b e Ha) as (b0 & -> & Hf & _ & Hs).
  destruct (attempts_exhausted method params b0 e He) as (e3 & -> & _).
  unfold record_failure. rewrite Hf.
  destruct (failures b + 1 >=? 5); cbn; [done|].
  repeat split. destruct Hs as [[Hn ->]|[-> ->]]; [by destruct (state b) | done].
Qed.

Lemma exhausted_call_is_counted_witness :
  let b := {| failures := 4; lastFailure := 0; state := closed |} in
  let out := makeRequest "getMe" NoParams b (Scenario.world 0 Scenario.failing) in
  success out.1.1 = false /\
  retryAfter out.1.1 = None /\
  failures out.1.2 = failures b + 1 /\
  lastFailure out.1.2 = Env.now out.2 /\
  state out.1.2 =
    (if failures b + 1 >=? 5 then open
     else if is_open (state b) then half_open else state b).
Proof.
  apply (exhausted_call_is_counted "getMe" NoParams
           {| failures := 4; lastFailure := 0; state := closed |}
           (Scenario.world 0 Scenario.failing)); reflexivity.
Defined.

Lemma closed_call_counted b call :
  state b = closed ->
  Series.exhausting (Series.world call) = true ->
  let b' := (makeRequest (Series.method call) (Series.params call) b (Series.world call)).1.2 in
  failures b' = failures b + 1 /\
  state b' = (if failures b + 1 >=? 5 then open else closed) /\
  lastFailure b' =
    Env.now (makeRequest (Series.method call) (Series.params call) b (Series.world call)).2.
Proof.
  intros Hs He. cbv zeta.
  assert (Ha : admits b (Env.now (Series.world call)) = true)
    by (unfold admits; by rewrite Hs).
  destruct (admits_cases (Series.method call) (Series.params call) b _ Ha)
    as (b0 & -> & Hf & _ & Hs0).
  destruct (attempts_exhausted (Series.method call) (Series.params call) b0 _ He)
    as (e3 & -> & _).
  unfold record_failure. rewrite Hf.
  destruct (failures b + 1 >=? 5); cbn; [done|].
  repeat split. destruct Hs0 as [[_ ->]|[? _]]; congruence.
Qed.

(** X12.  Five calls in a row from the initial breaker, each failing on
    all its attempts (the last not with a rate-limit reply), leave the
    breaker [open] with five failures and [lastFailure] at the instant the
    fifth call returned.  A sixth call made less than 30 s after that
    instant fails with [Circuit breaker is open], without a request to the
    network and without touching the breaker or the clock; one made 30 s
    after it or later sends a request. *)
Theorem five_failures_open_the_breaker earlier last :
  length earlier = 4%nat ->
  Forall (fun call => Series.exhausting (Series.world call) = true) (earlier ++ [last]) ->
  let fifth := makeRequest (Series.method last) (Series.params last)
                 (Series.after_calls earlier initial) (Series.world last) in
  let b := Series.after_calls (earlier ++ [last]) initial in
  b = fifth.1.2 /\
  state b = open /\ failures b = 5 /\
  lastFailure b = Env.now fifth.2 /\
  forall method params e,
    let out := makeRequest method params b e in
    if Env.now e - Env.now fifth.2 <? 30000 then
      success out.1.1 = false /\
      error out.1.1 = Some "Circuit breaker is open" /\
      out.1.2 = b /\
      Env.io out.2 = Env.io e /\ Env.cursor out.2 = Env.cursor e /\
      Env.now out.2 = Env.now e
    else (Env.cursor e + 1 <= Env.cursor out.2)%nat.
Proof.
  intros Hlen Hall.
  destruct earlier as [|c1 [|c2 [|c3 [|c4 [|]]]]]; try discriminate Hlen.
  cbn [app] in Hall.
  apply Forall_cons in Hall as [H1 Hall]. apply Forall_cons in Hall as [H2 Hall].
  apply Forall_cons in Hall as [H3 Hall]. apply Forall_cons in Hall as [H4 Hall].
  apply Forall_cons in Hall as [H5 _].
  unfold Series.after_calls. cbn [fold_left app].
  destruct (closed_call_counted initial c1 eq_refl H1) as (F1 & S1 & _).
  set (b1 := (makeRequest _ _ initial _).1.2) in *. cbn in F1, S1.
  destruct (closed_call_counted b1 c2 S1 H2) as (F2 & S2 & _).
  set (b2 := (makeRequest _ _ b1 _).1.2) in *. rewrite F1 in F2, S2. cbn in F2, S2.
  destruct (closed_call_counted b2 c3 S2 H3) as (F3 & S3 & _).
  set (b3 := (makeRequest _ _ b2 _).1.2) in *. rewrite F2 in F3, S3. cbn in F3, S3.
  destruct (closed_call_counted b3 c4 S3 H4) as (F4 & S4 & _).
  set (b4 := (makeRequest _ _ b3 _).1.2) in *. rewrite F3 in F4, S4. cbn in F4, S4.
  destruct (closed_call_counted b4 last S4 H5) as (F5 & S5 & L5).
  set (fifth := makeRequest _ _ b4 _) in *. rewrite F4 in F5, S5. cbn in F5, S5.
  cbv zeta. split; [reflexivity|]. split; [exact S5|]. split; [exact F5|].
  split; [exact L5|].
  intros method params e. rewrite <- L5.
  destruct (makeRequest_cases method params fifth.1.2 e)
    as [(_ & Hlt & ->)|[(_ & Hge & ->)|(Hn & _)]]; [| |done].
  - destruct (Z.ltb_spec (Env.now e - lastFailure fifth.1.2) 30000); [done|lia].
  - destruct (Z.ltb_spec (Env.now e - lastFailure fifth.1.2) 30000); [lia|].
    apply attempts_cursor_first.
Qed.

Lemma five_failures_open_the_breaker_witness :
  let call := {| Series.method := "getMe"; Series.params := NoParams;
                 Series.world := Scenario.world 0 Scenario.failing |} in
  let b := Series.after_calls [call; call; call; call; call] initial in
  state b = open /\ failures b = 5 /\ lastFailure b = 3300 /\
  (forall method params net,
     (makeRequest method params b (Scenario.world 33299 net)).1.1 =
       {| success := false; data := None; error := Some "Circuit breaker is open";
          retryAfter := None |}) /\
  (forall method params net,
     (1 <= Env.cursor (makeRequest method params b (Scenario.world 33300 net)).2)%nat).
Proof.
  intros call b.
  destruct (five_failures_open_the_breaker (replicate 4 call) call eq_refl)
    as (Hb & Hs & Hf & Hl & Hsixth).
  { repeat constructor. }
  change (Series.after_calls (replicate 4 call ++ [call]) initial) with b in *.
  assert (Hreturned :
    Env.now (makeRequest (Series.method call) (Series.params call)
               (Series.after_calls (replicate 4 call) initial) (Series.world call)).2
    = 3300) by (vm_compute; reflexivity).
  rewrite Hreturned in Hl, Hsixth.
  split; [exact Hs|]. split; [exact Hf|]. split; [exact Hl|]. split.
  - intros method params net.
    specialize (Hsixth method params (Scenario.world 33299 net)).
    cbv zeta in Hsixth. change (Env.now (Scenario.world 33299 net)) with 33299 in Hsixth.
    change (33299 - 3300 <? 30000) with true in Hsixth. cbv iota in Hsixth.
    destruct Hsixth as (Hsuccess & Herror & _).
    destruct (makeRequest_cases method params b (Scenario.world 33299 net))
      as [(_ & _ & ->)|[(_ & Hge & _)|(Hn & _)]]; [done | | congruence].
    rewrite Hl in Hge. cbn in Hge. lia.
  - intros method params net.
    specialize (Hsixth method params (Scenario.world 33300 net)).
    cbv zeta in Hsixth. change (Env.now (Scenario.world 33300 net)) with 33300 in Hsixth.
    change (33300 - 3300 <? 30000) with false in Hsixth. cbv iota in Hsixth.
    exact Hsixth.
Defined.

Lemma attempts_well_formed remaining : forall attempt lastError method params b e,
  Series.well_formed (attempts remaining attempt lastError method params b e).1.1.
Proof.
  unfold Series.well_formed.
  induction remaining as [|n IH]; intros attempt lastError method params b e.
  - cbn [attempts]. unfold record_failure. destruct (_ >=? _); cbn; eauto.
  - cbn [attempts]. unfold Env.fetch.
    destruct (reply _) as [result|code description|name code message]; cbv zeta.
    + cbn. eauto.
    + case_bool_decide.
      * destruct (attempt <? maxRetries); [apply IH | cbn; eauto].
      * apply IH.
    + apply IH.
Qed.

(** X13.  Every [APIResult] that [makeRequest] returns is of one of two
    shapes: a success carries a payload and no error or delay, a failure
    carries an error text and no payload. *)
Theorem makeRequest_result_shape method params b e :
  let r := (makeRequest method params b e).1.1 in
  (success r = true -> is_Some (data r) /\ error r = None /\ retryAfter r = None) /\
  (success r = false -> is_Some (error r) /\ data r = None).
Proof.
  cbv zeta.
  assert (H : Series.well_formed (makeRequest method params b e).1.1).
  { destruct (makeRequest_cases method params b e) as [(_ & _ & ->)|[(_ & _ & ->)|(_ & ->)]].
    - unfold Series.well_formed. cbn. eauto.
    - apply attempts_well_formed.
    - apply attempts_well_formed. }
  unfold Series.well_formed in H. destruct (success _); split; intros; done.
Qed.

Lemma backoff_nonneg attempt : 0 <= backoff attempt.
Proof.
  unfold backoff. apply Z.min_glb; [|lia].
  pose proof (Z.pow_nonneg 2 (attempt - 1)). lia.
Qed.

Lemma attempts_elapsed remaining : forall attempt lastError method params b e,
  (forall n, 0 <= latency (Env.net e n) <= 10000) ->
  (forall n, rate_limited (reply (Env.net e n)) = false) ->
  Env.now e <= Env.now (attempts remaining attempt lastError method params b e).2
            <= Env.now e + Series.longest remaining attempt.
Proof.
  induction remaining as [|n IH]; intros attempt lastError method params b e Hlat Hrl.
  - cbn [attempts Series.longest]. unfold record_failure. destruct (_ >=? _); cbn; lia.
  - pose proof (Hlat (Env.cursor e)) as Hl. pose proof (Hrl (Env.cursor e)) as Hr.
    pose proof (backoff_nonneg attempt) as Hb.
    assert (Hlong : 0 <= Series.longest n (attempt + 1)).
    { clear. generalize (attempt + 1). induction n as [|n IH]; intros a; cbn; [lia|].
      pose proof (IH (a + 1)). pose proof (backoff_nonneg a).
      destruct (a <? maxRetries); lia. }
    cbn [attempts Series.longest]. unfold Env.fetch.
    destruct (reply (Env.net e (Env.cursor e))) as [result|code description|name code message];
      cbv zeta.
    + cbn. destruct (attempt <? maxRetries); lia.
    + cbn [rate_limited] in Hr. rewrite Hr.
      match goal with |- context [attempts n ?a ?l _ _ _ ?e'] =>
        specialize (IH a l method params b e') end.
      destruct (attempt <? maxRetries); cbn in IH;
        specialize (IH Hlat Hrl); lia.
    + match goal with |- context [attempts n ?a ?l _ _ _ ?e'] =>
        specialize (IH a l method params b e') end.
      destruct (attempt <? maxRetries); cbn in IH;
        specialize (IH Hlat Hrl); lia.
Qed.

(** X14.  When no request takes longer than its 10 s timeout and no reply
    is a rate-limit one, a call of [makeRequest] returns at most 33 s after
    it was made (three timeouts and sleeps of 1 s and 2 s), and the clock
    never reads less at the return than at the call. *)
Theorem makeRequest_returns_in_time method params b e :
  (forall n, 0 <= latency (Env.net e n) <= 10000) ->
  (forall n, rate_limited (reply (Env.net e n)) = false) ->
  let out := makeRequest method params b e in
  Env.now e <= Env.now out.2 <= Env.now e + 33000.
Proof.
  intros Hlat Hrl. cbv zeta.
  destruct (makeRequest_cases method params b e) as [(_ & _ & ->)|[(_ & _ & ->)|(_ & ->)]];
    [cbn; lia | |]; change 33000 with (Series.longest 3 1).
  - by apply attempts_elapsed.
  - by apply attempts_elapsed.
Qed.

Lemma makeRequest_returns_in_time_witness :
  let e := Scenario.world 500 Scenario.failing in
  let out := makeRequest "getMe" NoParams initial e in
  Env.now e <= Env.now out.2 <= Env.now e + 33000.
Proof.
  apply (makeRequest_returns_in_time "getMe" NoParams initial
           (Scenario.world 500 Scenario.failing)).
  - intros n. unfold Scenario.world, Scenario.failing, Scenario.answering. cbn. lia.
  - intros n. unfold Scenario.world, Scenario.failing, Scenario.answering. cbn.
    by destruct n.
Defined.

(** X15.  When every attempt of an admitted call fails, the error of the
    result is the text of the last attempt's failure: [Request timeout]
    for an abort, [Connection error] for a reset or timed-out connection,
    the description sent by Telegram (or [Unknown API error]) for an error
    response, and otherwise the message of the exception. *)
Theorem error_is_the_last_failure method params b e :
  admits b (Env.now e) = true ->
  failed (upcoming e 0) = true ->
  failed (upcoming e 1) = true ->
  failed (upcoming e 2) = true ->
  error (makeRequest method params b e).1.1 = Some (Series.error_text (upcoming e 2)).
Proof.
  intros Ha H1 H2 H3.
  destruct (admits_cases method params b e Ha) as (b0 & -> & _).
  destruct (attempts_retry 2 1 "" method params b0 e) as
    (l1 & e1 & d1 & -> & Hc1 & Hn1 & _ & _ & _); [done..|].
  destruct (attempts_retry 1 (1 + 1) l1 method params b0 e1) as
    (l2 & e2 & d2 & -> & Hc2 & Hn2 & _ & _ & _);
    [done | by rewrite (upcoming_after e e1 0 Hn1 Hc1) |].
  assert (Hup2 : upcoming e2 0 = upcoming e 2)
    by (by rewrite (upcoming_after e1 e2 0 Hn2 Hc2), (upcoming_after e e1 1 Hn1 Hc1)).
  rewrite <- Hup2 in *. clear Hup2. revert H3. unfold upcoming.
  replace (Env.cursor e2 + 0)%nat with (Env.cursor e2) by lia.
  cbn [attempts]. unfold Env.fetch.
  replace (1 + 1 + 1 <? maxRetries) with false by reflexivity.
  destruct (reply _) as [?|code description|name code message]; intros H3;
    [discriminate H3| |]; cbv zeta; cbn [Series.error_text].
  - case_bool_decide; [done|]. unfold record_failure. by destruct (_ >=? _).
  - unfold record_failure. by destruct (_ >=? _).
Qed.

Lemma error_is_the_last_failure_witness :
  let e := Scenario.world 0
             (Scenario.answering []
                (Thrown "AbortError" None "The operation was aborted")) in
  error (makeRequest "getMe" NoParams initial e).1.1 = Some "Request timeout".
Proof.
  apply (error_is_the_last_failure "getMe" NoParams initial
           (Scenario.world 0
              (Scenario.answering []
                 (Thrown "AbortError" None "The operation was aborted"))));
    reflexivity.
Defined.

End GatewayMore.

(** ** Usage statistics *)

Section StatsMore.
Import Js Wire Handler StatsManager.
Import CacheManager.

Lemma get_result_other {V} (c : gmap string (CacheItem V)) k k' t :
  k <> k' -> (get (get c k t).2 k' t).1 = (get c k' t).1.
Proof.
  intros Hne. unfold get at 2. destruct (c !! k) as [item|] eqn:Hk; [|done].
  destruct (t >? expiry item); [|done]. cbn [snd].
  unfold get. rewrite lookup_delete_ne by done.
  destruct (c !! k') as [item'|]; [|done]. by destruct (t >? expiry item').
Qed.

(** A read leaves the same entries live. *)
Lemma cleanup_get {V} (c : gmap string (CacheItem V)) k t :
  cleanup (get c k t).2 t = cleanup c t.
Proof.
  apply map_eq. intros k'. rewrite !cleanup_lookup. unfold get.
  destruct (c !! k) as [item|] eqn:Hk; [|done].
  destruct (Z.gtb_spec t (expiry item)) as [Hexp|Hlive]; [|done]. cbn [snd].
  destruct (decide (k = k')) as [<-|Hne].
  - rewrite lookup_delete_eq, Hk. by destruct (Z.gtb_spec t (expiry item)); [|lia].
  - by rewrite lookup_delete_ne.
Qed.

Lemma get_after_cleanup {V} (c : gmap string (CacheItem V)) k t :
  (get (cleanup c t) k t).1 = (get c k t).1.
Proof.
  unfold get. rewrite cleanup_lookup.
  destruct (c !! k) as [item|]; [|done].
  destruct (t >? expiry item) eqn:E; [done|]. by rewrite E.
Qed.

(** [getStats], run: the counters are what a read of their keys gives, the
    active users are the live keys that start with [stats:user:], and the
    cache is left swept. *)
Lemma getStats_run s :
  let t := Env.now (env s) in
  getStats s =
    (Normal {| totalMessages := or_zero (get (cache s) "stats:total_messages" t).1;
               activeUsers :=
                 length (List.filter (fun key => startsWith key "stats:user:")
                           (keys (cache s) t).1);
               errors24h := or_zero (get (cache s) "stats:errors_24h" t).1;
               lastActivity := (get (cache s) "stats:last_activity" t).1 |},
     {| cache := cleanup (cache s) t; circuitBreaker := circuitBreaker s;
        env := env s |}).
Proof.
  cbv zeta. unfold getStats, bind, cache_get, cache_keys, ret.
  destruct (get (cache s) "stats:total_messages" (Env.now (env s))) as [v1 c1] eqn:G1.
  cbn [cache env circuitBreaker].
  destruct (get c1 "stats:errors_24h" (Env.now (env s))) as [v2 c2] eqn:G2.
  cbn [cache env circuitBreaker].
  destruct (get c2 "stats:last_activity" (Env.now (env s))) as [v3 c3] eqn:G3.
  cbn [cache env circuitBreaker]. unfold keys. cbn [fst snd].
  assert (Hc1 : c1 = (get (cache s) "stats:total_messages" (Env.now (env s))).2)
    by (by rewrite G1).
  assert (Hc2 : c2 = (get c1 "stats:errors_24h" (Env.now (env s))).2) by (by rewrite G2).
  assert (Hc3 : c3 = (get c2 "stats:last_activity" (Env.now (env s))).2) by (by rewrite G3).
  assert (Hsweep : cleanup c3 (Env.now (env s)) = cleanup (cache s) (Env.now (env s))).
  { by rewrite Hc3, cleanup_get, Hc2, cleanup_get, Hc1, cleanup_get. }
  assert (Hv2 : v2 = (get (cache s) "stats:errors_24h" (Env.now (env s))).1).
  { rewrite <- (get_result_other (cache s) "stats:total_messages" "stats:errors_24h")
      by done. by rewrite <- Hc1, G2. }
  assert (Hv3 : v3 = (get (cache s) "stats:last_activity" (Env.now (env s))).1).
  { rewrite <- (get_result_other (cache s) "stats:total_messages" "stats:last_activity")
      by done.
    rewrite <- Hc1.
    rewrite <- (get_result_other c1 "stats:errors_24h" "stats:last_activity") by done.
    by rewrite <- Hc2, G3. }
  by rewrite Hsweep, Hv2, Hv3.
Qed.

(** [extractUserId] only reads the update. *)
Lemma extractUserId_pure update s s0 :
  extractUserId update s = ((extractUserId update s0).1, s).
Proof.
  unfold extractUserId, bind, lift, ret.
  repeat case_match; simplify_eq; done.
Qed.

(** [recordUpdate], run: the cache it leaves, and where it can throw. *)
Lemma recordUpdate_run update s :
  let t := Env.now (env s) in
  let read := get (cache s) "stats:total_messages" t in
  let c2 := set read.2 "stats:total_messages" (Number (or_zero read.1 + 1)) (86400 * 7) t in
  recordUpdate update s =
    match (extractUserId update s).1 with
    | Abrupt e =>
        (Abrupt e, {| cache := c2; circuitBreaker := circuitBreaker s; env := env s |})
    | Normal userId =>
        let c3 := match Update.sender update s with
                  | Some id => set c2 (Update.user_key id) (Number t) 86400 t
                  | None => c2
                  end in
        let c4 := set c3 "stats:last_activity" (IsoString t) 86400 t in
        (Normal tt,
         {| cache := (get c4 "stats:errors_24h" t).2;
            circuitBreaker := circuitBreaker s; env := env s |})
    end.
Proof.
  cbv zeta. unfold recordUpdate, Update.sender, Update.user_key.
  unfold bind at 1. unfold cache_get at 1.
  destruct (get (cache s) "stats:total_messages" (Env.now (env s))) as [v1 c1].
  cbn [fst snd]. unfold bind at 1. unfold cache_set at 1. cbn [cache env circuitBreaker].
  unfold bind at 1. rewrite (extractUserId_pure update _ s).
  destruct (extractUserId update s).1 as [[id|]|e]; [| |done].
  - destruct (String.eqb id ""); unfold bind, cache_get, cache_set, now, ret;
      cbn [cache env circuitBreaker]; by destruct (get _ _ _).
  - unfold bind, cache_get, cache_set, now, ret;
      cbn [cache env circuitBreaker]; by destruct (get _ _ _).
Qed.

Lemma get_lookup_other {V} (c : gmap string (CacheItem V)) k k' t :
  k <> k' -> (get c k t).2 !! k' = c !! k'.
Proof.
  intros Hne. unfold get. destruct (c !! k) as [item|]; [|done].
  destruct (t >? expiry item); [|done]. cbn [snd]. by rewrite lookup_delete_ne.
Qed.

Lemma get_set_other {V} (c : gmap string (CacheItem V)) k k' v ttl t0 t :
  k <> k' -> (get (set c k v ttl t0) k' t).1 = (get c k' t).1.
Proof.
  intros Hne. unfold get, set. rewrite lookup_insert_ne by done.
  destruct (c !! k') as [item|]; [|done]. by destruct (t >? expiry item).
Qed.

Lemma get_set_same {V} (c : gmap string (CacheItem V)) k v ttl t :
  0 <= ttl -> (get (set c k v ttl t) k t).1 = Some v.
Proof.
  intros Httl. unfold get, set. rewrite lookup_insert_eq. cbn [expiry value].
  by destruct (Z.gtb_spec t (t + ttl * 1000)); [lia|].
Qed.

Lemma get_twice {V} (c : gmap string (CacheItem V)) k t :
  (get (get c k t).2 k t).1 = (get c k t).1.
Proof.
  unfold get at 2 3. destruct (c !! k) as [item|] eqn:Hk; [|by rewrite get_absent].
  destruct (t >? expiry item) eqn:E; cbn [fst snd].
  - by rewrite get_absent by apply lookup_delete_eq.
  - unfold get. by rewrite Hk, E.
Qed.

Lemma user_key_private id :
  Update.user_key id <> "stats:total_messages" /\
  Update.user_key id <> "stats:errors_24h" /\
  Update.user_key id <> "stats:last_activity".
Proof. unfold Update.user_key. repeat split; discriminate. Qed.

(** X16.  [recordUpdate] adds one to the message counter that [getStats]
    reports and leaves the error counter as it was, also when it throws for
    want of a readable user id; when it completes, the last activity is the
    instant of the call. *)
Theorem recordUpdate_counts_one update s :
  let out := recordUpdate update s in
  exists before after,
    (getStats s).1 = Normal before /\
    (getStats out.2).1 = Normal after /\
    totalMessages after = totalMessages before + 1 /\
    errors24h after = errors24h before /\
    (out.1 = Normal tt -> lastActivity after = Some (IsoString (Env.now (env s)))).
Proof.
  cbv zeta. rewrite (getStats_run s). cbn [fst].
  pose proof (recordUpdate_run update s) as Hrun. cbv zeta in Hrun.
  destruct (user_key_private "") as (_ & _ & _).
  set (t := Env.now (env s)) in *.
  set (read := get (cache s) "stats:total_messages" t) in *.
  set (total := Number (or_zero read.1 + 1)) in *.
  set (c2 := set read.2 "stats:total_messages" total (86400 * 7) t) in *.
  assert (He2 : (get c2 "stats:errors_24h" t).1 = (get (cache s) "stats:errors_24h" t).1).
  { unfold c2. rewrite get_set_other by done. by apply get_result_other. }
  destruct (extractUserId update s).1 as [userId|e].
  - set (c3 := match Update.sender update s with
               | Some id => set c2 (Update.user_key id) (Number t) 86400 t
               | None => c2
               end) in *.
    assert (Ht3 : (get c3 "stats:total_messages" t).1 = Some total).
    { unfold c3. destruct (Update.sender update s) as [id|].
      - rewrite get_set_other by apply user_key_private.
        unfold c2. by apply get_set_same.
      - unfold c2. by apply get_set_same. }
    assert (He3 : (get c3 "stats:errors_24h" t).1 = (get (cache s) "stats:errors_24h" t).1).
    { unfold c3. destruct (Update.sender update s) as [id|]; [|done].
      by rewrite get_set_other by apply user_key_private. }
    rewrite Hrun, getStats_run. cbn [fst snd cache env].
    eexists _, _. split; [reflexivity|]. split; [reflexivity|].
    cbn [totalMessages errors24h lastActivity]. fold t.
    rewrite (get_result_other _ "stats:errors_24h" "stats:total_messages") by done.
    rewrite (get_result_other _ "stats:errors_24h" "stats:last_activity") by done.
    rewrite get_twice.
    rewrite (get_set_other _ "stats:last_activity" "stats:total_messages") by done.
    rewrite (get_set_other _ "stats:last_activity" "stats:errors_24h") by done.
    rewrite Ht3, He3. split; [done|]. split; [done|].
    intros _. by apply get_set_same.
  - rewrite Hrun, getStats_run. cbn [fst snd cache env].
    eexists _, _. split; [reflexivity|]. split; [reflexivity|].
    cbn [totalMessages errors24h lastActivity]. fold t. rewrite He2.
    unfold c2. rewrite get_set_same by done. done.
Qed.

(** X17.  [recordError] adds one to the error counter that [getStats]
    reports and leaves the message counter as it was. *)
Theorem recordError_counts_one s :
  exists before after,
    (getStats s).1 = Normal before /\
    (getStats (recordError s).2).1 = Normal after /\
    errors24h after = errors24h before + 1 /\
    totalMessages after = totalMessages before /\
    (recordError s).1 = Normal tt.
Proof.
  rewrite (getStats_run s). cbn [fst].
  unfold recordError, bind, cache_get, cache_set.
  destruct (get (cache s) "stats:errors_24h" (Env.now (env s))) as [v c1] eqn:G.
  cbn [fst snd cache env circuitBreaker].
  rewrite getStats_run. cbn [fst snd cache env].
  eexists _, _. split; [reflexivity|]. split; [reflexivity|].
  cbn [totalMessages errors24h].
  rewrite get_set_same by done. rewrite get_set_other by done.
  assert (Hc1 : c1 = (get (cache s) "stats:errors_24h" (Env.now (env s))).2)
    by (by rewrite G).
  rewrite Hc1, get_result_other by done. done.
Qed.

(** *** Counting the active users *)

Local Abbreviation is_user key := (startsWith key "stats:user:").
Local Abbreviation users m := (length (List.filter (fun key => is_user key) (fst <$> map_to_list m))).

Lemma filter_length_perm {A} (f : A -> bool) (l l' : list A) :
  l ≡ₚ l' -> length (List.filter f l) = length (List.filter f l').
Proof.
  induction 1 as [|x l l' _ IH|x y l|l l' l'' _ IH1 _ IH2]; cbn.
  - done.
  - destruct (f x); cbn; congruence.
  - by destruct (f x), (f y).
  - congruence.
Qed.

Lemma users_insert_fresh {V} (m : gmap string V) k v :
  m !! k = None ->
  users (<[k := v]> m) = (users m + (if is_user k then 1 else 0))%nat.
Proof.
  intros Hk.
  rewrite (filter_length_perm _ _ (k :: (fst <$> map_to_list m))).
  - cbn [List.filter]. destruct (startsWith k "stats:user:"); cbn [length]; lia.
  - by rewrite (map_to_list_insert m k v Hk).
Qed.

Lemma users_insert {V} (m : gmap string V) k v :
  users (<[k := v]> m) =
    (users m + (if is_user k then match m !! k with Some _ => 0 | None => 1 end else 0))%nat.
Proof.
  destruct (m !! k) as [old|] eqn:Hk.
  - rewrite <- (insert_delete_eq m k v).
    rewrite <- (insert_delete_id m k old Hk) at 2.
    rewrite !users_insert_fresh by apply lookup_delete_eq.
    destruct (startsWith k "stats:user:"); lia.
  - rewrite users_insert_fresh by done. done.
Qed.

Lemma cleanup_set {V} (c : gmap string (CacheItem V)) k v ttl t :
  0 <= ttl ->
  cleanup (set c k v ttl t) t = <[k := {| value := v; expiry := t + ttl * 1000 |}]> (cleanup c t).
Proof.
  intros Httl. apply map_eq. intros k'. rewrite cleanup_lookup. unfold set.
  destruct (decide (k = k')) as [<-|Hne].
  - rewrite !lookup_insert_eq. cbn [expiry].
    by destruct (Z.gtb_spec t (t + ttl * 1000)); [lia|].
  - rewrite !lookup_insert_ne by done. by rewrite cleanup_lookup.
Qed.



End StatsMore.

(** ** The dispatcher *)

Section DispatcherMore.
Import Js Wire Handler WebhookHandler Effects.
Local Open Scope handler_scope.

(** *** Computations that reach nothing but the cache and the console *)

Lemma same_world_refl s : same_world s s.
Proof. by repeat split. Qed.

Lemma same_world_trans s1 s2 s3 :
  same_world s1 s2 -> same_world s2 s3 -> same_world s1 s3.
Proof. unfold same_world. intros (?&?&?&?&?&?) (?&?&?&?&?&?). repeat split; congruence. Qed.

Lemma quiet_ret {A} (a : A) : quiet (ret a).
Proof. intros s. apply same_world_refl. Qed.

Lemma quiet_lift {A} (c : completion A) : quiet (lift c).
Proof. intros s. apply same_world_refl. Qed.

Lemma quiet_field v name : quiet (field v name).
Proof. apply quiet_lift. Qed.

Lemma quiet_now : quiet now.
Proof. intros s. apply same_world_refl. Qed.

Lemma quiet_log l message : quiet (log l message).
Proof. intros s. by repeat split. Qed.

Lemma quiet_cache_get key : quiet (cache_get key).
Proof. intros s. unfold cache_get. destruct (CacheManager.get _ _ _). by repeat split. Qed.

Lemma quiet_cache_set key v ttl : quiet (cache_set key v ttl).
Proof. intros s. by repeat split. Qed.

Lemma quiet_cache_keys : quiet cache_keys.
Proof. intros s. by repeat split. Qed.

Lemma quiet_bind {A B} (m : M A) (k : A -> M B) :
  quiet m -> (forall a, quiet (k a)) -> quiet (bind m k).
Proof.
  intros Hm Hk s. unfold bind. specialize (Hm s).
  destruct (m s) as [[a|e] s1]; [|done].
  eapply same_world_trans; [exact Hm | apply Hk].
Qed.

Lemma quiet_try_catch {A} (body : M A) handler :
  quiet body -> (forall e, quiet (handler e)) -> quiet (try_catch body handler).
Proof.
  intros Hm Hk s. unfold try_catch. specialize (Hm s).
  destruct (body s) as [[a|e] s1]; [done|].
  eapply same_world_trans; [exact Hm | apply Hk].
Qed.

Ltac quiet_step :=
  lazymatch goal with
  | |- quiet (bind _ _) => apply quiet_bind; [|intros ?]
  | |- quiet (try_catch _ _) => apply quiet_try_catch; [|intros ?]
  | |- quiet (ret _) => apply quiet_ret
  | |- quiet (lift _) => apply quiet_lift
  | |- quiet (field _ _) => apply quiet_field
  | |- quiet now => apply quiet_now
  | |- quiet (log _ _) => apply quiet_log
  | |- quiet (cache_get _) => apply quiet_cache_get
  | |- quiet (cache_set _ _ _) => apply quiet_cache_set
  | |- quiet cache_keys => apply quiet_cache_keys
  | |- quiet (if ?b then _ else _) => destruct b
  | |- quiet (match ?x with _ => _ end) => destruct x
  end.

Lemma quiet_getUpdateType update : quiet (getUpdateType update).
Proof. unfold getUpdateType. repeat quiet_step. Qed.

Lemma quiet_extractChatId update : quiet (extractChatId update).
Proof. unfold extractChatId. repeat quiet_step. Qed.

Lemma quiet_recordUpdate update : quiet (StatsManager.recordUpdate update).
Proof. unfold StatsManager.recordUpdate, StatsManager.extractUserId. repeat quiet_step. Qed.

Lemma quiet_getStats : quiet StatsManager.getStats.
Proof. unfold StatsManager.getStats. repeat quiet_step. Qed.

Lemma quiet_isThrottled chatId : quiet (isThrottled chatId).
Proof. unfold isThrottled. repeat quiet_step. Qed.

Lemma quiet_admission update : quiet (admission update).
Proof.
  unfold admission.
  repeat first [ apply quiet_getUpdateType | apply quiet_extractChatId
               | apply quiet_recordUpdate | apply quiet_isThrottled | quiet_step ].
Qed.

(** X19.  A throttled update is dropped: [handleWebhook] completes, and
    between its start and its end no request is sent, no timer awaited, no
    method of the gateway called and the breaker not touched; the last line
    on the console is the warning. *)
Theorem throttled_update_is_dropped update s :
  throttled update s = true ->
  let out := handleWebhook update s in
  out.1 = Normal tt /\
  same_world s out.2 /\
  exists lines, Env.logs (env out.2) = lines ++ [(Env.Warn, "User throttled")].
Proof.
  unfold throttled. intros Ht.
  destruct (admission update s) as [[[chat flag]|e] s1] eqn:Ha; [|done]. subst flag.
  cbv zeta. rewrite (handleWebhook_throttled _ _ _ _ Ha).
  pose proof (quiet_admission update s) as Hq. rewrite Ha in Hq. cbn [snd] in Hq.
  split; [done|]. split.
  - eapply same_world_trans; [exact Hq | apply quiet_log].
  - by eexists.
Qed.

Lemma throttled_update_is_dropped_witness :
  let s := {| cache := {[ "throttle:42" :=
                            {| CacheManager.value := Number 10;
                               CacheManager.expiry := 60000 |} ]};
              circuitBreaker := TelegramAPI.initial;
              env := Scenario.world 0 Scenario.healthy |} in
  let out := handleWebhook Scenario.start_message s in
  out.1 = Normal tt /\ same_world s out.2.
Proof.
  intros s.
  destruct (throttled_update_is_dropped Scenario.start_message s) as (H1 & H2 & _);
    [by vm_compute|].
  split; assumption.
Defined.

(** The throttle check is made for a truthy chat id only. *)
Lemma admission_flag update s chat flag s1 :
  admission update s = (Normal (chat, flag), s1) ->
  truthy chat = false -> flag = false.
Proof.
  unfold admission. intros Ha Hfalsy.
  apply bind_Normal in Ha as (x & s2 & H1 & Ha).
  apply bind_Normal in Ha as (kind & s3 & H2 & Ha).
  apply bind_Normal in Ha as ([] & s4 & H3 & Ha).
  apply bind_Normal in Ha as ([] & s5 & H4 & Ha).
  apply bind_Normal in Ha as (chat' & s6 & H5 & Ha).
  apply bind_Normal in Ha as (flag' & s7 & H6 & Ha).
  injection Ha as -> -> ->. rewrite Hfalsy in H6. unfold ret in H6. congruence.
Qed.

(** X20.  An update whose chat id is falsy (absent, [null], [0] or the
    empty string) is never throttled, whatever the cache holds. *)
Theorem falsy_chat_is_never_throttled update s chat :
  chat_of update s = Normal chat ->
  truthy chat = false ->
  throttled update s = false.
Proof.
  intros Hchat Hfalsy. unfold throttled.
  destruct (admission update s) as [[[chat' flag]|e] s1] eqn:Ha; [|reflexivity].
  destruct (admission_Normal _ _ _ _ _ Ha) as (_ & Hchat' & _).
  assert (chat' = chat) as -> by congruence.
  by apply (admission_flag _ _ _ _ _ Ha).
Qed.

Lemma falsy_chat_is_never_throttled_witness :
  let update := Scenario.update_of [("message", Obj [("chat", Obj [("id", Num 0)])])] in
  let s := {| cache := {[ "throttle:0" :=
                            {| CacheManager.value := Number 10;
                               CacheManager.expiry := 60000 |} ]};
              circuitBreaker := TelegramAPI.initial;
              env := Scenario.world 0 Scenario.healthy |} in
  throttled update s = false.
Proof.
  intros update s.
  apply (falsy_chat_is_never_throttled update s (Num 0)); reflexivity.
Defined.

(** X21.  The throttle counters are kept per rendered chat id: a check of
    one chat leaves the counter of every chat that renders differently as it
    was, and two chat ids that render the same (the number [42] and the
    string ["42"]) share one counter. *)
Theorem throttle_counters_are_per_chat chatId id other t s :
  toString chatId = Normal id ->
  (other <> id ->
   throttle_entry other (throttled_at chatId t s).2 = throttle_entry other s) /\
  (forall chatId', toString chatId' = Normal id ->
                   throttled_at chatId' t s = throttled_at chatId t s).
Proof.
  intros Hid. split.
  - intros Hne. rewrite (throttled_at_unfold _ _ _ _ Hid). cbv zeta.
    assert (Hkey : "throttle:" +:+ id <> "throttle:" +:+ other).
    { intros H. apply Hne. symmetry. revert H. clear. intros H.
      by repeat (injection H as H). }
    unfold throttle_entry.
    assert (Hread : (CacheManager.get (cache s) ("throttle:" +:+ id) t).2
                      !! ("throttle:" +:+ other) = cache s !! ("throttle:" +:+ other)).
    { unfold CacheManager.get. destruct (cache s !! ("throttle:" +:+ id)) as [item|]; [|done].
      destruct (t >? CacheManager.expiry item); [|done]. cbn [snd].
      by rewrite lookup_delete_ne. }
    destruct (_ >=? 10); cbn [snd cache]; [done|].
    unfold CacheManager.set. by rewrite lookup_insert_ne.
  - intros chatId' Hid'.
    by rewrite (throttled_at_unfold _ _ _ _ Hid), (throttled_at_unfold _ _ _ _ Hid').
Qed.

Lemma throttle_counters_are_per_chat_witness :
  let s := Scenario.fresh 0 Scenario.healthy in
  throttle_entry "7" (throttled_at (Num 42) 0 s).2 = throttle_entry "7" s /\
  throttled_at (Str "42") 0 s = throttled_at (Num 42) 0 s.
Proof.
  intros s.
  destruct (throttle_counters_are_per_chat (Num 42) "42" "7" 0 s eq_refl) as [H1 H2].
  split; [apply H1; discriminate | apply H2; reflexivity].
Defined.

(** *** Where exceptions can come from *)

Lemma try_catch_total {A} (body : M A) handler s :
  (forall e s', exists a, (handler e s').1 = Normal a) ->
  exists a, (try_catch body handler s).1 = Normal a.
Proof.
  intros Hh. unfold try_catch. destruct (body s) as [[a|e] s1]; [by exists a|].
  apply Hh.
Qed.

(** X22.  The handlers that wrap their body in [try]/[catch] never throw,
    whatever they are given; [handleChannelPost], which has no [catch],
    throws exactly when the post or its [chat] is [undefined] or [null]. *)
Theorem handlers_never_raise v s :
  (exists handled, (handleMessage v s).1 = Normal handled) /\
  (exists handled, (handleEditedMessage v s).1 = Normal handled) /\
  (exists handled, (handleCallbackQuery v s).1 = Normal handled) /\
  (exists handled, (handleInlineQuery v s).1 = Normal handled) /\
  (exists handled, (handleChatMemberUpdate v s).1 = Normal handled) /\
  (forall text, (sendFallbackMessage v text s).1 = Normal tt) /\
  ((exists e, (handleChannelPost v s).1 = Abrupt e) <->
   nullish v = true \/ nullish (optprop v "chat") = true).
Proof.
  split; [|split; [|split; [|split; [|split; [|split; [|split]]]]]].
  1-5: apply try_catch_total; intros e s'; by exists false.
  - intros text. pose proof (sendFallbackMessage_sends v text s) as H.
    unfold wp in H. by destruct H as [-> _].
  - unfold handleChannelPost, bind, field, lift, log, ret. rewrite prop_spec.
    destruct (nullish v); [by left|]. rewrite prop_spec.
    destruct (nullish (optprop v "chat")); [by right|]. intros [e H]. discriminate H.
  - unfold handleChannelPost, bind, field, lift, log, ret. rewrite prop_spec.
    destruct (nullish v); [by eexists|]. rewrite prop_spec.
    destruct (nullish (optprop v "chat")); [by eexists|]. by intros [H|H].
Qed.

Lemma read_chat_id holder s :
  nullish holder = false ->
  bind (field holder "chat") (fun chat => field chat "id") s =
    (if nullish (optprop holder "chat") then Abrupt TypeError
     else Normal (optprop (optprop holder "chat") "id"), s).
Proof.
  intros Hh. unfold bind, field, lift. rewrite prop_spec, Hh, prop_spec.
  by destruct (nullish (optprop holder "chat")).
Qed.

(** [extractChatId] throws exactly when the update is nullish, or the
    object that should carry the chat has none. *)
Lemma chat_of_raises update s :
  (exists e, chat_of update s = Abrupt e) <->
  nullish update = true \/
  exists holder, Update.chat_holder update = Some holder /\
                 nullish (optprop holder "chat") = true.
Proof.
  unfold chat_of, extractChatId, Update.chat_holder.
  unfold bind at 1. unfold field at 1. unfold lift at 1. rewrite prop_spec.
  destruct (nullish update) eqn:Hu; [split; eauto|].
  cbn [fst].
  assert (Hread : forall holder,
            truthy holder = true ->
            ((exists e, (bind (field holder "chat") (fun chat => field chat "id") s).1
                        = Abrupt e) <->
             nullish (optprop holder "chat") = true)).
  { intros holder Hh. rewrite (read_chat_id holder) by by apply truthy_not_nullish.
    cbn [fst]. destruct (nullish (optprop holder "chat")).
    - split; eauto.
    - split; [intros [e H]; discriminate H | done]. }
  assert (Hsome : forall holder P,
            (P <-> nullish (optprop holder "chat") = true) ->
            (P <-> (false = true \/ exists h, Some holder = Some h /\
                                             nullish (optprop h "chat") = true))).
  { intros holder P HP. rewrite HP. split.
    - intros H. right. by exists holder.
    - intros [?|(h & [= <-] & H)]; done. }
  destruct (truthy (optprop update "message")) eqn:H1; [by apply Hsome, Hread|].
  unfold bind at 1. unfold field at 1. unfold lift at 1. rewrite prop_spec, Hu.
  destruct (truthy (optprop update "edited_message")) eqn:H2; [by apply Hsome, Hread|].
  unfold bind at 1. unfold field at 1. unfold lift at 1. rewrite prop_spec, Hu.
  destruct (truthy (optprop (optprop update "callback_query") "message")) eqn:H3.
  { apply Hsome. unfold bind at 1. unfold field at 1. unfold lift at 1.
    assert (Hcq : nullish (optprop update "callback_query") = false).
    { by destruct (optprop update "callback_query"). }
    rewrite prop_spec, Hcq. by apply Hread. }
  unfold bind at 1. unfold field at 1. unfold lift at 1. rewrite prop_spec, Hu.
  destruct (truthy (optprop update "channel_post")) eqn:H4; [by apply Hsome, Hread|].
  unfold bind at 1. unfold field at 1. unfold lift at 1. rewrite prop_spec, Hu.
  destruct (truthy (optprop update "my_chat_member")) eqn:H5; [by apply Hsome, Hread|].
  cbn. split; [intros [e H]; discriminate H|].
  intros [H|(h & H & _)]; discriminate H.
Qed.

(** X23.  [handleWebhook] throws exactly when the update is [undefined] or
    [null], or the object in which the chat id is looked up (the message,
    the edited message, the message of the callback query, the channel post
    or the membership change, whichever comes first) has no [chat]. *)
Theorem handleWebhook_raises_exactly update s :
  (exists e, (handleWebhook update s).1 = Abrupt e) <->
  nullish update = true \/
  exists holder, Update.chat_holder update = Some holder /\
                 nullish (optprop holder "chat") = true.
Proof. rewrite handleWebhook_raises_iff. apply chat_of_raises. Qed.

(** *** What each command is answered with *)

(** [handleMessage] up to the point where it looks at the text: the chat
    id and the text are read, a line is logged, and the sender is noted as
    last seen now. *)
Lemma handleMessage_prelude message text s :
  nullish message = false ->
  nullish (optprop message "chat") = false ->
  or (optprop message "text") (Str "") = Str text ->
  Update.sender_renders message ->
  let chatId := optprop (optprop message "chat") "id" in
  let userId := optprop (optprop message "from") "id" in
  let t := Env.now (env s) in
  handleMessage message s =
    try_catch
      (if startsWith text "/start" then handleStartCommand chatId
       else if startsWith text "/help" then handleHelpCommand chatId
       else if startsWith text "/status" then handleStatusCommand chatId
       else handleTextMessage chatId text message)
      (fun _ => log Env.Error "Message handling failed";; ret false)
      {| cache :=
           if truthy userId then
             match toString userId with
             | Normal id =>
                 CacheManager.set (cache s) ("user:" +:+ id +:+ ":last_seen") (Number t) 86400 t
             | Abrupt _ => cache s
             end
           else cache s;
         circuitBreaker := circuitBreaker s;
         env := Env.log Env.Info "Processing message" (env s) |}.
Proof.
  intros Hm Hchat Htext Hsender. cbv zeta.
  unfold handleMessage, try_catch.
  unfold bind at 1. unfold field at 1. unfold lift at 1. rewrite prop_spec, Hm.
  unfold bind at 1. unfold field at 1. unfold lift at 1. rewrite prop_spec, Hchat.
  unfold bind at 1. unfold field at 1. unfold lift at 1. rewrite prop_spec, Hm.
  unfold bind at 1. unfold field at 1. unfold lift at 1. rewrite prop_spec, Hm.
  unfold bind at 1. rewrite Htext. unfold as_string, ret at 1.
  unfold bind at 1. unfold log at 1.
  unfold bind at 1.
  destruct (truthy (optprop (optprop message "from") "id")) eqn:Hid.
  - destruct (Hsender Hid) as [id ->].
    unfold bind at 1. unfold lift at 1. unfold bind at 1. unfold now at 1.
    unfold cache_set at 1. reflexivity.
  - unfold ret at 1. reflexivity.
Qed.

Lemma try_catch_Normal {A} (body : M A) handler s :
  (exists a, (body s).1 = Normal a) -> try_catch body handler s = body s.
Proof. intros [a H]. unfold try_catch. by destruct (body s) as [[a'|e] s1]. Qed.

(** A command that sends one text and reports what the gateway reported. *)
Lemma one_message chatId text s :
  let out := bind (api (TelegramAPI.sendMessage chatId text))
               (fun result => ret (TelegramAPI.success result)) s in
  exists ok, out.1 = Normal ok /\ calls_of out.2 = calls_of s ++ [sent chatId text ok].
Proof.
  cbv zeta.
  change (wp (bind (api (TelegramAPI.sendMessage chatId text))
                (fun result => ret (TelegramAPI.success result)))
            (fun c s' => exists ok, c = Normal ok /\
                                    calls_of s' = calls_of s ++ [sent chatId text ok]) s).
  apply wp_bind. unfold TelegramAPI.sendMessage. apply wp_api. intros r s' Hc.
  apply wp_ret. by exists (TelegramAPI.success r).
Qed.

(** X24.  A message whose text starts with [/start] is answered with the
    welcome text, and one that starts with [/help] with the help text: one
    [sendMessage] to the chat of the message, whose outcome is what
    [handleMessage] reports. *)
Theorem command_is_answered message text s :
  nullish message = false ->
  nullish (optprop message "chat") = false ->
  or (optprop message "text") (Str "") = Str text ->
  Update.sender_renders message ->
  startsWith text "/start" = true \/ startsWith text "/help" = true ->
  let out := handleMessage message s in
  let reply := if startsWith text "/start" then Welcome else Help in
  exists ok,
    out.1 = Normal ok /\
    calls_of out.2 =
      calls_of s ++ [sent (optprop (optprop message "chat") "id") reply ok].
Proof.
  intros Hm Hchat Htext Hsender Hcmd. cbv zeta.
  rewrite (handleMessage_prelude message text s Hm Hchat Htext Hsender).
  set (s1 := {| cache := _; circuitBreaker := _; env := _ |}).
  assert (Hcalls : calls_of s1 = calls_of s) by reflexivity.
  rewrite <- Hcalls.
  destruct (startsWith text "/start") eqn:Hstart.
  - unfold handleStartCommand.
    destruct (one_message (optprop (optprop message "chat") "id") Welcome s1)
      as (ok & H1 & H2).
    rewrite try_catch_Normal by eauto. eauto.
  - destruct Hcmd as [Hcmd|Hcmd]; [done|]. rewrite Hcmd.
    unfold handleHelpCommand.
    destruct (one_message (optprop (optprop message "chat") "id") Help s1)
      as (ok & H1 & H2).
    rewrite try_catch_Normal by eauto. eauto.
Qed.

Lemma command_is_answered_witness :
  let message := optprop Scenario.start_message "message" in
  let out := handleMessage message (Scenario.fresh 0 Scenario.healthy) in
  exists ok, out.1 = Normal ok /\
             calls_of out.2 = [sent (Num 42) Welcome ok].
Proof.
  intros message.
  apply (command_is_answered message "/start" (Scenario.fresh 0 Scenario.healthy)).
  - reflexivity.
  - reflexivity.
  - reflexivity.
  - intros _. by exists "7".
  - by left.
Defined.

Lemma status_is_no_other_command text :
  startsWith text "/status" = true ->
  startsWith text "/start" = false /\ startsWith text "/help" = false.
Proof.
  unfold startsWith.
  destruct text as [|c1 [|c2 [|c3 [|c4 [|c5 r]]]]]; cbn [String.prefix]; try done.
  all: intros H;
    repeat match type of H with
           | context [Ascii.ascii_dec ?a ?b] =>
               destruct (Ascii.ascii_dec a b) as [<-|]; [|discriminate H]
           end; try done.
Qed.

Lemma last_seen_is_no_statistic id :
  "user:" +:+ id +:+ ":last_seen" <> "stats:total_messages" /\
  "user:" +:+ id +:+ ":last_seen" <> "stats:errors_24h" /\
  "user:" +:+ id +:+ ":last_seen" <> "stats:last_activity" /\
  startsWith ("user:" +:+ id +:+ ":last_seen") "stats:user:" = false.
Proof. repeat split; discriminate. Qed.

Lemma handleStatusCommand_run chatId s :
  let out := handleStatusCommand chatId s in
  exists stats ok,
    (StatsManager.getStats s).1 = Normal stats /\
    out.1 = Normal ok /\
    calls_of out.2 =
      calls_of s ++
      [sent chatId
         (Status (StatsManager.totalMessages stats) (StatsManager.activeUsers stats)) ok].
Proof.
  cbv zeta. rewrite (getStats_run s). cbn [fst].
  set (stats := {| StatsManager.totalMessages := _; StatsManager.activeUsers := _;
                   StatsManager.errors24h := _; StatsManager.lastActivity := _ |}).
  set (s2 := {| cache := CacheManager.cleanup (cache s) (Env.now (env s));
                circuitBreaker := circuitBreaker s; env := env s |}).
  assert (Hrun : handleStatusCommand chatId s =
                 bind (api (TelegramAPI.sendMessage chatId
                              (Status (StatsManager.totalMessages stats)
                                 (StatsManager.activeUsers stats))))
                   (fun result => ret (TelegramAPI.success result)) s2).
  { unfold handleStatusCommand. unfold bind at 1. by rewrite (getStats_run s). }
  rewrite Hrun.
  destruct (one_message chatId
              (Status (StatsManager.totalMessages stats) (StatsManager.activeUsers stats))
              s2) as (ok & H1 & H2).
  exists stats, ok. split; [reflexivity|]. split; [exact H1 | exact H2].
Qed.

(** X25.  A message whose text starts with [/status] is answered with the
    status text, and the numbers in it are those [getStats] gives when the
    message arrives: noting the sender as last seen does not count as
    activity in the statistics. *)
Theorem status_reports_the_statistics message text s :
  nullish message = false ->
  nullish (optprop message "chat") = false ->
  or (optprop message "text") (Str "") = Str text ->
  Update.sender_renders message ->
  startsWith text "/status" = true ->
  let out := handleMessage message s in
  exists stats ok,
    (StatsManager.getStats s).1 = Normal stats /\
    out.1 = Normal ok /\
    calls_of out.2 =
      calls_of s ++
      [sent (optprop (optprop message "chat") "id")
         (Status (StatsManager.totalMessages stats) (StatsManager.activeUsers stats)) ok].
Proof.
  intros Hm Hchat Htext Hsender Hcmd. cbv zeta.
  rewrite (handleMessage_prelude message text s Hm Hchat Htext Hsender).
  destruct (status_is_no_other_command text Hcmd) as [-> ->]. rewrite Hcmd.
  set (s1 := {| cache := _; circuitBreaker := _; env := _ |}).
  assert (Hcalls : calls_of s1 = calls_of s) by reflexivity.
  rewrite <- Hcalls.
  destruct (handleStatusCommand_run (optprop (optprop message "chat") "id") s1)
    as (stats1 & ok & Hstats1 & Hok & Hsent).
  rewrite try_catch_Normal by eauto.
  rewrite (getStats_run s1) in Hstats1. rewrite (getStats_run s).
  cbn [fst] in Hstats1 |- *. injection Hstats1 as <-.
  cbn [StatsManager.totalMessages StatsManager.activeUsers] in Hsent.
  eexists _, ok. split; [reflexivity|]. split; [exact Hok|]. rewrite Hsent.
  cbn [StatsManager.totalMessages StatsManager.activeUsers].
  do 4 f_equal.
  - unfold s1. cbn [cache env Env.now Env.log].
    destruct (truthy (optprop (optprop message "from") "id")); [|done].
    destruct (toString (optprop (optprop message "from") "id")) as [id|e]; [|done].
    destruct (last_seen_is_no_statistic id) as (Hk1 & _ & _ & Hk2).
    by rewrite get_set_other.
  - unfold s1. cbn [cache env Env.now Env.log].
    destruct (truthy (optprop (optprop message "from") "id")); [|done].
    destruct (toString (optprop (optprop message "from") "id")) as [id|e]; [|done].
    destruct (last_seen_is_no_statistic id) as (Hk1 & _ & _ & Hk2).
    unfold CacheManager.keys. cbn [fst].
    rewrite cleanup_set, users_insert by done. rewrite Hk2. lia.
Qed.

Lemma status_reports_the_statistics_witness :
  let message := Obj [("chat", Scenario.chat42); ("text", Str "/status")] in
  let out := handleMessage message (Scenario.fresh 0 Scenario.healthy) in
  exists stats ok,
    (StatsManager.getStats (Scenario.fresh 0 Scenario.healthy)).1 = Normal stats /\
    out.1 = Normal ok /\
    calls_of out.2 =
      [sent (Num 42)
         (Status (StatsManager.totalMessages stats) (StatsManager.activeUsers stats)) ok].
Proof.
  intros message.
  apply (status_reports_the_statistics message "/status" (Scenario.fresh 0 Scenario.healthy)).
  - reflexivity.
  - reflexivity.
  - reflexivity.
  - intros H. discriminate H.
  - reflexivity.
Defined.

Lemma echo_is_no_command text :
  startsWith (toLowerCase text) "/echo " = true ->
  startsWith text "/start" = false /\ startsWith text "/help" = false /\
  startsWith text "/status" = false.
Proof.
  unfold startsWith.
  destruct text as [|c1 [|c2 r]]; cbn [toLowerCase String.prefix]; try done.
  { intros H. by destruct (Ascii.ascii_dec _ _). }
  intros H.
  destruct (Ascii.ascii_dec _ (lower_ascii c1)); [|done].
  destruct (Ascii.ascii_dec _ c1); [|done].
  repeat match goal with
         | |- context [Ascii.ascii_dec ?a c2] =>
             destruct (Ascii.ascii_dec a c2) as [<-|]
         end; try done; vm_compute in H; discriminate H.
Qed.

Lemma echo_command_split cmd rest :
  toLowerCase cmd = "/echo " ->
  startsWith (toLowerCase (cmd +:+ rest)) "/echo " = true /\
  substring_from 6 (cmd +:+ rest) = rest.
Proof.
  destruct cmd as [|a1 [|a2 [|a3 [|a4 [|a5 [|a6 [|a7 r]]]]]]]; cbn [toLowerCase];
    try discriminate.
  intros [= H1 H2 H3 H4 H5 H6]. split; [|reflexivity].
  unfold startsWith. cbn [String.append toLowerCase].
  change (String a1 (String a2 (String a3 (String a4 (String a5 (String a6 "")))))
            +:+ rest)
    with (String a1 (String a2 (String a3 (String a4 (String a5 (String a6 rest)))))).
  cbn [toLowerCase]. rewrite H1, H2, H3, H4, H5, H6.
  by destruct (toLowerCase rest).
Qed.

(** X26.  [/echo] gives back what follows it: for a text made of the six
    characters of the command, in any letter case, and a rest, the reply is
    the rest, unchanged. *)
Theorem echo_returns_the_rest message cmd rest s :
  nullish message = false ->
  nullish (optprop message "chat") = false ->
  optprop message "text" = Str (cmd +:+ rest) ->
  Update.sender_renders message ->
  toLowerCase cmd = "/echo " ->
  let out := handleMessage message s in
  exists ok,
    out.1 = Normal ok /\
    calls_of out.2 =
      calls_of s ++ [sent (optprop (optprop message "chat") "id") (Plain rest) ok].
Proof.
  intros Hm Hchat Htext Hsender Hcmd. cbv zeta.
  destruct (echo_command_split cmd rest Hcmd) as [Hecho Hrest].
  destruct (echo_is_no_command _ Hecho) as (H1 & H2 & H3).
  assert (Htext' : or (optprop message "text") (Str "") = Str (cmd +:+ rest)).
  { rewrite Htext. unfold or. cbn [truthy].
    destruct cmd; [discriminate Hcmd | done]. }
  rewrite (handleMessage_prelude message _ s Hm Hchat Htext' Hsender).
  rewrite H1, H2, H3.
  set (s1 := {| cache := _; circuitBreaker := _; env := _ |}).
  assert (Hcalls : calls_of s1 = calls_of s) by reflexivity.
  rewrite <- Hcalls.
  unfold handleTextMessage. rewrite Hecho, Hrest.
  destruct (one_message (optprop (optprop message "chat") "id") (Plain rest) s1)
    as (ok & Hok & Hsent).
  assert (Hbody :
    bind (ret (Plain rest))
      (fun response =>
         bind (api (TelegramAPI.sendMessage (optprop (optprop message "chat") "id") response))
           (fun result => ret (TelegramAPI.success result))) s1
    = bind (api (TelegramAPI.sendMessage (optprop (optprop message "chat") "id") (Plain rest)))
        (fun result => ret (TelegramAPI.success result)) s1) by reflexivity.
  rewrite (try_catch_Normal (try_catch _ _)).
  - rewrite try_catch_Normal; rewrite Hbody; eauto.
  - rewrite try_catch_Normal; rewrite Hbody; eauto.
Qed.

Lemma echo_returns_the_rest_witness :
  let message := Obj [("chat", Scenario.chat42); ("text", Str "/Echo Hello, World")] in
  let out := handleMessage message (Scenario.fresh 0 Scenario.healthy) in
  exists ok, out.1 = Normal ok /\
             calls_of out.2 = [sent (Num 42) (Plain "Hello, World") ok].
Proof.
  intros message.
  apply (echo_returns_the_rest message "/Echo " "Hello, World"
           (Scenario.fresh 0 Scenario.healthy)).
  - reflexivity.
  - reflexivity.
  - reflexivity.
  - intros H. discriminate H.
  - reflexivity.
Defined.

(** *** Callback and inline queries *)

Ltac wp_step :=
  lazymatch goal with
  | |- wp (ret _) _ _ => apply wp_ret
  | |- wp (bind _ _) _ _ => apply wp_bind
  | |- wp (try_catch _ _) _ _ => apply wp_try_catch
  | |- wp (lift _) _ _ => apply wp_lift
  | |- wp (field _ _) _ _ => unfold field; apply wp_lift
  | |- wp (log _ _) _ _ => apply wp_log; intros ? ?
  | |- wp now _ _ => apply wp_now
  | |- wp (cache_set _ _ _) _ _ => apply wp_cache_set; intros ? ?
  | |- wp (cache_get _) _ _ => apply wp_cache_get; intros ? ? ?
  | |- wp cache_keys _ _ => apply wp_cache_keys; intros ? ? ?
  | |- wp (api (TelegramAPI.method_call _ _)) _ _ => apply wp_api; intros ? ? ?
  | |- wp (api (TelegramAPI.sendMessage _ _)) _ _ =>
      unfold TelegramAPI.sendMessage; apply wp_api; intros ? ? ?
  | |- wp (api (TelegramAPI.answerCallbackQuery _ _)) _ _ =>
      unfold TelegramAPI.answerCallbackQuery; apply wp_api; intros ? ? ?
  | |- wp (api (TelegramAPI.answerInlineQuery _ _)) _ _ =>
      unfold TelegramAPI.answerInlineQuery; apply wp_api; intros ? ? ?
  end.

Ltac wp_case :=
  lazymatch goal with
  | |- wp (if ?b then _ else _) _ _ => destruct b eqn:?
  | |- wp (match ?x with _ => _ end) _ _ => destruct x eqn:?
  | |- match ?c with Normal _ => _ | Abrupt _ => _ end => destruct c eqn:?
  end.

Ltac wp_run := repeat (first [wp_step | wp_case | progress cbv beta iota]).

Ltac calls_back :=
  repeat match goal with
         | H : calls_of _ = _ |- _ => rewrite H; clear H
         end.

Ltac props_known :=
  repeat match goal with
         | H : prop _ _ = Normal _ |- _ => apply prop_Normal in H as [? ->]
         end.

(** X27.  A callback query is acknowledged first, with the text
    [You clicked: <data>], and then answered in its chat with
    [Button clicked: <data>] whatever became of the acknowledgement; the
    handler reports the outcome of the answer, or success when the query
    carries no chat.  When the data cannot be rendered nothing is sent. *)
Theorem callback_query_is_acknowledged_first callbackQuery s :
  let chat := optprop (optprop (optprop callbackQuery "message") "chat") "id" in
  let out := handleCallbackQuery callbackQuery s in
  if nullish callbackQuery then out.1 = Normal false /\ calls_of out.2 = calls_of s
  else
    match toString (optprop callbackQuery "data") with
    | Abrupt _ => out.1 = Normal false /\ calls_of out.2 = calls_of s
    | Normal shown =>
        exists acked,
          let ack := ("answerCallbackQuery",
                      AnswerCallbackQuery (optprop callbackQuery "id")
                        (Some (Plain ("You clicked: " +:+ shown))) false, acked) in
          if truthy chat then
            exists ok,
              out.1 = Normal ok /\
              calls_of out.2 =
                calls_of s ++ [ack; sent chat (Plain ("Button clicked: " +:+ shown)) ok]
          else out.1 = Normal true /\ calls_of out.2 = calls_of s ++ [ack]
    end.
Proof.
  cbv zeta.
  change (wp (handleCallbackQuery callbackQuery)
            (fun c s' =>
               if nullish callbackQuery then c = Normal false /\ calls_of s' = calls_of s
               else
                 match toString (optprop callbackQuery "data") with
                 | Abrupt _ => c = Normal false /\ calls_of s' = calls_of s
                 | Normal shown =>
                     exists acked,
                       if truthy (optprop (optprop (optprop callbackQuery "message") "chat") "id")
                       then
                         exists ok,
                           c = Normal ok /\
                           calls_of s' =
                             calls_of s ++
                             [("answerCallbackQuery",
                               AnswerCallbackQuery (optprop callbackQuery "id")
                                 (Some (Plain ("You clicked: " +:+ shown))) false, acked);
                              sent (optprop (optprop (optprop callbackQuery "message") "chat") "id")
                                (Plain ("Button clicked: " +:+ shown)) ok]
                       else
                         c = Normal true /\
                         calls_of s' =
                           calls_of s ++
                           [("answerCallbackQuery",
                             AnswerCallbackQuery (optprop callbackQuery "id")
                               (Some (Plain ("You clicked: " +:+ shown))) false, acked)]
                 end) s).
  unfold handleCallbackQuery. wp_run; props_known.
  all: repeat match goal with
         | H : nullish _ = _ |- _ => rewrite H
         | H : toString _ = _ |- _ => rewrite H
         end.
  all: try (split; [reflexivity | calls_back; reflexivity]).
  all: try match goal with
         | H : prop ?v _ = Abrupt _ |- _ =>
             rewrite prop_spec in H; destruct (nullish v) eqn:?; [|discriminate H]
         end.
  all: try (split; [reflexivity | calls_back; reflexivity]).
  all: try congruence.
  all: eexists; match goal with H : truthy _ = _ |- _ => rewrite H end.
  - eexists. split; [reflexivity|]. calls_back. rewrite <- app_assoc. reflexivity.
  - split; [reflexivity|]. calls_back. reflexivity.
Qed.

(** X28.  An inline query is answered with one article whose text is
    [You searched for: <query>], by [answerInlineQuery] and by no other
    method; the handler reports the outcome of that call.  When the query
    cannot be rendered nothing is sent. *)
Theorem inline_query_is_answered inlineQuery s :
  let out := handleInlineQuery inlineQuery s in
  if nullish inlineQuery then out.1 = Normal false /\ calls_of out.2 = calls_of s
  else
    match toString (optprop inlineQuery "query") with
    | Abrupt _ => out.1 = Normal false /\ calls_of out.2 = calls_of s
    | Normal shown =>
        exists ok,
          out.1 = Normal ok /\
          calls_of out.2 =
            calls_of s ++
            [("answerInlineQuery",
              AnswerInlineQuery (optprop inlineQuery "id") ("You searched for: " +:+ shown),
              ok)]
    end.
Proof.
  cbv zeta.
  change (wp (handleInlineQuery inlineQuery)
            (fun c s' =>
               if nullish inlineQuery then c = Normal false /\ calls_of s' = calls_of s
               else
                 match toString (optprop inlineQuery "query") with
                 | Abrupt _ => c = Normal false /\ calls_of s' = calls_of s
                 | Normal shown =>
                     exists ok,
                       c = Normal ok /\
                       calls_of s' =
                         calls_of s ++
                         [("answerInlineQuery",
                           AnswerInlineQuery (optprop inlineQuery "id")
                             ("You searched for: " +:+ shown), ok)]
                 end) s).
  unfold handleInlineQuery. wp_run; props_known.
  all: repeat match goal with
         | H : nullish _ = _ |- _ => rewrite H
         | H : toString _ = _ |- _ => rewrite H
         end.
  all: try (split; [reflexivity | calls_back; reflexivity]).
  all: try match goal with
         | H : prop ?v _ = Abrupt _ |- _ =>
             rewrite prop_spec in H; destruct (nullish v) eqn:?; [|discriminate H]
         end.
  all: try (split; [reflexivity | calls_back; reflexivity]).
  all: try congruence.
  all: eexists; split; [reflexivity|]; calls_back; reflexivity.
Qed.

(** *** The message counter across one update *)

Lemma hands_off_ret {A} (a : A) : hands_off (ret a).
Proof. by intros s. Qed.

Lemma hands_off_lift {A} (c : completion A) : hands_off (lift c).
Proof. by intros s. Qed.

Lemma hands_off_now : hands_off now.
Proof. by intros s. Qed.

Lemma hands_off_log l message : hands_off (log l message).
Proof. by intros s. Qed.

Lemma hands_off_api call : hands_off (api call).
Proof. intros s. unfold api. by destruct (call _ _) as [[r b] e]. Qed.

Lemma hands_off_bind {A B} (m : M A) (k : A -> M B) :
  hands_off m -> (forall a, hands_off (k a)) -> hands_off (bind m k).
Proof.
  intros Hm Hk s. unfold bind. specialize (Hm s).
  destruct (m s) as [[a|e] s1]; [|done]. by rewrite Hk.
Qed.

Lemma hands_off_try_catch {A} (body : M A) handler :
  hands_off body -> (forall e, hands_off (handler e)) -> hands_off (try_catch body handler).
Proof.
  intros Hm Hk s. unfold try_catch. specialize (Hm s).
  destruct (body s) as [[a|e] s1]; [done|]. by rewrite Hk.
Qed.

Ltac hands_off_step :=
  lazymatch goal with
  | |- hands_off (bind _ _) => apply hands_off_bind; [|intros ?]
  | |- hands_off (try_catch _ _) => apply hands_off_try_catch; [|intros ?]
  | |- hands_off (ret _) => apply hands_off_ret
  | |- hands_off (lift _) => apply hands_off_lift
  | |- hands_off (field _ _) => apply hands_off_lift
  | |- hands_off now => apply hands_off_now
  | |- hands_off (log _ _) => apply hands_off_log
  | |- hands_off (api _) => apply hands_off_api
  | |- hands_off (if ?b then _ else _) => destruct b
  | |- hands_off (match ?x with _ => _ end) => destruct x
  end.

Lemma careful_of_hands_off item {A} (m : M A) :
  hands_off m -> quiet m -> careful item m.
Proof.
  intros Hm Hq s Hc _. split.
  - unfold counted. by rewrite Hm.
  - by destruct (Hq s) as (_ & -> & _).
Qed.

Lemma careful_cache_get item key : careful item (cache_get key).
Proof.
  intros s Hc Hlive. unfold cache_get, counted in *.
  destruct (CacheManager.get (cache s) key (Env.now (env s))) as [v c] eqn:G.
  cbn [snd cache env]. split; [|done].
  unfold CacheManager.get in G.
  destruct (cache s !! key) as [item'|] eqn:Hk; [|congruence].
  destruct (Z.gtb_spec (Env.now (env s)) (CacheManager.expiry item')); [|congruence].
  injection G as _ <-.
  destruct (decide (key = "stats:total_messages")) as [->|Hne].
  - assert (item' = item) as -> by congruence. lia.
  - by rewrite lookup_delete_ne.
Qed.

Lemma careful_cache_set item key v ttl :
  key <> "stats:total_messages" -> careful item (cache_set key v ttl).
Proof.
  intros Hne s Hc _. unfold cache_set, counted, CacheManager.set in *.
  cbn [snd cache env]. split; [|done]. by rewrite lookup_insert_ne.
Qed.

Lemma careful_cache_keys item : careful item cache_keys.
Proof.
  intros s Hc Hlive. unfold cache_keys, counted, CacheManager.keys in *.
  cbn [snd cache env]. split; [|done].
  rewrite cleanup_lookup, Hc.
  by destruct (Z.gtb_spec (Env.now (env s)) (CacheManager.expiry item)); [lia|].
Qed.

Lemma careful_bind item {A B} (m : M A) (k : A -> M B) :
  careful item m -> (forall a, careful item (k a)) -> careful item (bind m k).
Proof.
  intros Hm Hk s Hc Hlive. unfold bind. specialize (Hm s Hc Hlive).
  destruct (m s) as [[a|e] s1]; [|done]. cbn [snd] in Hm. destruct Hm as [Hc1 Ht1].
  destruct (Hk a s1 Hc1) as [Hc2 Ht2]; [by rewrite Ht1|].
  split; [done | congruence].
Qed.

Ltac careful_step :=
  lazymatch goal with
  | |- careful _ (bind _ _) => apply careful_bind; [|intros ?]
  | |- careful _ (ret _) => apply careful_of_hands_off; [apply hands_off_ret | apply quiet_ret]
  | |- careful _ (lift _) => apply careful_of_hands_off; [apply hands_off_lift | apply quiet_lift]
  | |- careful _ (field _ _) =>
      apply careful_of_hands_off; [apply hands_off_lift | apply quiet_lift]
  | |- careful _ (as_string ?v) => destruct v; cbn [as_string]
  | |- careful _ now => apply careful_of_hands_off; [apply hands_off_now | apply quiet_now]
  | |- careful _ (log _ _) =>
      apply careful_of_hands_off; [apply hands_off_log | apply quiet_log]
  | |- careful _ (cache_get _) => apply careful_cache_get
  | |- careful _ cache_keys => apply careful_cache_keys
  | |- careful _ (cache_set _ _ _) => apply careful_cache_set; discriminate
  | |- careful _ (if ?b then _ else _) => destruct b
  | |- careful _ (match ?x with _ => _ end) => destruct x
  end.

Lemma keeping_of_careful item {A} (m : M A) : careful item m -> keeping item m.
Proof. intros Hm s Hc Hlive. by destruct (Hm s Hc Hlive). Qed.

Lemma keeping_of_hands_off item {A} (m : M A) : hands_off m -> keeping item m.
Proof. intros Hm s Hc _. unfold counted. by rewrite Hm. Qed.

Lemma keeping_bind item {A B} (m : M A) (k : A -> M B) :
  careful item m -> (forall a, keeping item (k a)) -> keeping item (bind m k).
Proof.
  intros Hm Hk s Hc Hlive. unfold bind. specialize (Hm s Hc Hlive).
  destruct (m s) as [[a|e] s1]; cbn [snd] in Hm; destruct Hm as [Hc1 Ht1]; [|done].
  apply Hk; [done | by rewrite Ht1].
Qed.

Lemma keeping_then_hands_off item {A B} (m : M A) (k : A -> M B) :
  keeping item m -> (forall a, hands_off (k a)) -> keeping item (bind m k).
Proof.
  intros Hm Hk s Hc Hlive. unfold bind. specialize (Hm s Hc Hlive).
  destruct (m s) as [[a|e] s1]; cbn [snd] in Hm; [|done].
  unfold counted. by rewrite Hk.
Qed.

Lemma keeping_try_catch item {A} (body : M A) handler :
  keeping item body -> (forall e, hands_off (handler e)) ->
  keeping item (try_catch body handler).
Proof.
  intros Hm Hk s Hc Hlive. unfold try_catch. specialize (Hm s Hc Hlive).
  destruct (body s) as [[a|e] s1]; cbn [snd] in Hm; [done|].
  unfold counted. by rewrite Hk.
Qed.

Ltac keeping_step :=
  lazymatch goal with
  | |- keeping _ (try_catch _ _) =>
      apply keeping_try_catch; [|intros ?; solve [repeat hands_off_step]]
  | |- keeping _ (bind _ _) =>
      first [ apply keeping_of_hands_off; solve [repeat hands_off_step]
            | apply keeping_bind; [solve [repeat careful_step] | intros ?] ]
  | |- keeping _ (if ?b then _ else _) => destruct b
  | |- keeping _ (match ?x with _ => _ end) => destruct x
  | |- keeping _ _ =>
      first [ apply keeping_of_hands_off; solve [repeat hands_off_step]
            | apply keeping_of_careful; solve [repeat careful_step] ]
  end.

Lemma keeping_handleMessage item message : keeping item (handleMessage message).
Proof.
  unfold handleMessage, handleStartCommand, handleHelpCommand, handleStatusCommand,
    handleTextMessage, StatsManager.getStats.
  repeat keeping_step.
Qed.

Lemma keeping_dispatch item update : keeping item (dispatch update).
Proof.
  unfold dispatch.
  repeat first [ apply keeping_handleMessage | keeping_step ].
  all: unfold handleEditedMessage, handleCallbackQuery, handleInlineQuery,
         handleChannelPost, handleChatMemberUpdate; repeat keeping_step.
Qed.

Lemma keeping_respond item update chat : keeping item (respond update chat).
Proof.
  unfold respond. apply keeping_then_hands_off; [apply keeping_dispatch|].
  intros handled. unfold sendFallbackMessage. repeat hands_off_step.
Qed.

Lemma hands_off_recover update : hands_off (recover update).
Proof. unfold recover, extractChatId, sendFallbackMessage. repeat hands_off_step. Qed.

Lemma careful_throttle_check item update :
  careful item
    (bind (extractChatId update)
       (fun chatId =>
          bind (if truthy chatId then isThrottled chatId else ret false)
            (fun throttled => ret (chatId, throttled)))).
Proof. unfold extractChatId, isThrottled. repeat careful_step. Qed.

(** [recordUpdate] leaves the message counter one higher, with seven days
    to live, whether it completes or throws. *)
Lemma recordUpdate_counted update s :
  let t := Env.now (env s) in
  let out := StatsManager.recordUpdate update s in
  counted {| CacheManager.value :=
               Number (or_zero (CacheManager.get (cache s) "stats:total_messages" t).1 + 1);
             CacheManager.expiry := t + 86400 * 7 * 1000 |} out.2 /\
  Env.now (env out.2) = t.
Proof.
  cbv zeta. rewrite (recordUpdate_run update s). cbv zeta. unfold counted.
  destruct (StatsManager.extractUserId update s).1 as [userId|e]; cbn [snd cache env].
  - split; [|done]. rewrite get_lookup_other by done.
    unfold CacheManager.set at 1. rewrite lookup_insert_ne by done.
    destruct (Update.sender update s) as [id|].
    + unfold CacheManager.set at 1.
      rewrite lookup_insert_ne by apply user_key_private.
      unfold CacheManager.set. by rewrite lookup_insert_eq.
    + unfold CacheManager.set. by rewrite lookup_insert_eq.
  - split; [|done]. unfold CacheManager.set. by rewrite lookup_insert_eq.
Qed.

(** Up to the throttle check, a readable update has been counted. *)
Lemma admission_counted update s :
  nullish update = false ->
  let t := Env.now (env s) in
  counted {| CacheManager.value :=
               Number (or_zero (CacheManager.get (cache s) "stats:total_messages" t).1 + 1);
             CacheManager.expiry := t + 86400 * 7 * 1000 |} (admission update s).2 /\
  Env.now (env (admission update s).2) = t.
Proof.
  intros Hu. cbv zeta.
  set (s0 := {| cache := cache s; circuitBreaker := circuitBreaker s;
                env := Env.log Env.Info "Received webhook update" (env s) |}).
  assert (Hrun :
    admission update s =
      bind (StatsManager.recordUpdate update)
        (fun _ =>
           bind (extractChatId update)
             (fun chatId =>
                bind (if truthy chatId then isThrottled chatId else ret false)
                  (fun throttled => ret (chatId, throttled)))) s0).
  { unfold admission. unfold bind at 1. unfold field at 1. unfold lift at 1.
    rewrite prop_spec, Hu. unfold bind at 1.
    by rewrite (getUpdateType_classify update s Hu). }
  rewrite Hrun. clear Hrun.
  set (rest := bind (extractChatId update) _).
  assert (Hbind :
    bind (StatsManager.recordUpdate update) (fun _ => rest) s0 =
      match StatsManager.recordUpdate update s0 with
      | (Normal _, s1) => rest s1
      | (Abrupt e, s1) => (Abrupt e, s1)
      end) by reflexivity.
  rewrite Hbind. clear Hbind.
  destruct (recordUpdate_counted update s0) as [Hc Ht]. cbv zeta in Hc, Ht.
  change (cache s0) with (cache s) in Hc.
  change (Env.now (env s0)) with (Env.now (env s)) in Hc, Ht.
  destruct (StatsManager.recordUpdate update s0) as [[[]|e] s1]; cbn [snd] in Hc, Ht.
  - destruct (careful_throttle_check _ update s1 Hc) as [Hc' Ht'].
    + cbn [CacheManager.expiry]. lia.
    + split; [exact Hc'|]. unfold rest. by rewrite Ht'.
  - done.
Qed.

(** X30.  Every update that is an object is counted once: when
    [handleWebhook] is over the message counter is one more than a reader
    found it at the start and has seven days to live, whether the update
    was answered, throttled, of unknown kind, or made a handler or
    [handleWebhook] itself throw. *)
Theorem every_update_is_counted update s :
  nullish update = false ->
  let t := Env.now (env s) in
  cache (handleWebhook update s).2 !! "stats:total_messages" =
    Some {| CacheManager.value :=
              Number (or_zero (CacheManager.get (cache s) "stats:total_messages" t).1 + 1);
            CacheManager.expiry := t + 86400 * 7 * 1000 |}.
Proof.
  intros Hu. cbv zeta.
  destruct (admission_counted update s Hu) as [Hc Ht]. cbv zeta in Hc, Ht.
  destruct (admission_cases update s)
    as [(chat & s1 & Ha)|[(chat & s1 & Ha)|(e & s1 & Ha)]];
    rewrite Ha in Hc, Ht; cbn [snd] in Hc, Ht.
  - rewrite (handleWebhook_admitted _ _ _ _ Ha).
    apply (keeping_try_catch _ (respond update chat) (fun _ => recover update)).
    + apply keeping_respond.
    + intros _. apply hands_off_recover.
    + exact Hc.
    + cbn [CacheManager.expiry]. lia.
  - rewrite (handleWebhook_throttled _ _ _ _ Ha). exact Hc.
  - rewrite (handleWebhook_rejected _ _ _ _ Ha).
    rewrite (hands_off_recover update s1). exact Hc.
Qed.

Lemma every_update_is_counted_witness :
  let s := Scenario.fresh 0 Scenario.failing in
  cache (handleWebhook Scenario.message_without_chat s).2 !! "stats:total_messages" =
    Some {| CacheManager.value := Number 1; CacheManager.expiry := 604800000 |}.
Proof.
  intros s. apply (every_update_is_counted Scenario.message_without_chat s). reflexivity.
Defined.

End DispatcherMore.

(** ** The webhook route *)

Section ServerMore.
Import Js Wire Handler WebhookHandler Effects Server.
Local Open Scope handler_scope.

(** X29.  The webhook route never fails and answers by the secret alone:
    with the wrong secret it answers 401 and nothing happens but a warning
    on the console; with the right one it runs [handleWebhook] on the body
    and answers 200 with [{ok: true}] whether [handleWebhook] completes or
    throws, the state being the one [handleWebhook] left, one error line
    apart. *)
Theorem webhook_route_acknowledges WEBHOOK_SECRET secret body s :
  let out := webhook WEBHOOK_SECRET secret body s in
  let handled := handleWebhook body s in
  if String.eqb secret WEBHOOK_SECRET then
    out.1 = Normal acknowledged /\
    cache out.2 = cache handled.2 /\
    same_world handled.2 out.2 /\
    Env.logs (env out.2) =
      Env.logs (env handled.2) ++
      match handled.1 with
      | Normal _ => []
      | Abrupt _ => [(Env.Error, "Webhook processing failed")]
      end
  else
    out.1 = Normal unauthorized /\
    cache out.2 = cache s /\
    same_world s out.2 /\
    Env.logs (env out.2) = Env.logs (env s) ++ [(Env.Warn, "Invalid webhook secret")].
Proof.
  cbv zeta.
  assert (Hrun :
    webhook WEBHOOK_SECRET secret body s =
      if String.eqb secret WEBHOOK_SECRET then
        match handleWebhook body s with
        | (Normal _, s1) => (Normal acknowledged, s1)
        | (Abrupt _, s1) =>
            (Normal acknowledged,
             {| cache := cache s1; circuitBreaker := circuitBreaker s1;
                env := Env.log Env.Error "Webhook processing failed" (env s1) |})
        end
      else
        (Normal unauthorized,
         {| cache := cache s; circuitBreaker := circuitBreaker s;
            env := Env.log Env.Warn "Invalid webhook secret" (env s) |})).
  { unfold webhook, try_catch, bind.
    destruct (String.eqb secret WEBHOOK_SECRET); cbn [negb]; [|reflexivity].
    by destruct (handleWebhook body s) as [[[]|e] s1]. }
  rewrite Hrun. clear Hrun.
  destruct (String.eqb secret WEBHOOK_SECRET).
  - destruct (handleWebhook body s) as [[[]|e] s1]; cbn.
    + rewrite app_nil_r. repeat split.
    + repeat split.
  - cbn. repeat split.
Qed.

End ServerMore.
